(** * BlueSync front end: the test-case screens, their formatting helpers and
      the API client, as a shallow embedding of the TypeScript sources.

    Sources embedded here:
    - [components/TestCaseGeneration.tsx]: [formatDescription],
      [formatInputData], [formatDescriptionSmart], the test case card, the
      effect of selecting a file, the selection handlers, the generation and
      improve handlers, [sortedTestCases] and the results section;
    - the reports screen ([ComplianceReports]): the metrics effect,
      [filteredTestCases], [handleExportCSV] and the views;
    - the dashboard ([Dashboard]): [fetchData] and its totals;
    - [services/api.ts]: [apiService];
    - [components/IntegrationHub.tsx]: [handlePushToJira] and its status line. *)

From Stdlib Require Import List NArith ZArith Bool Arith Lia Ascii PrimFloat.
From Stdlib Require String.
Import String.StringSyntax.
Delimit Scope string_scope with string.
From Stdlib Require Import Sorting.Sorted Sorting.Permutation.
Import ListNotations.

Set Warnings "-register-all".

(** ** JavaScript strings

    A JavaScript string is a sequence of UTF-16 code units.  A code unit is
    kept as an [N]; string literals of the sources are written with [lit]. *)

Definition char := N.
Abbreviation str := (list char) (only parsing).

Definition lit (s : String.string) : str :=
  List.map N_of_ascii (String.list_ascii_of_string s).

Arguments lit s%_string.

Fixpoint str_eqb (a b : str) : bool :=
  match a, b with
  | [], [] => true
  | x :: a', y :: b' => N.eqb x y && str_eqb a' b'
  | _, _ => false
  end.

(** [\d] of a regular expression without the [u] flag: [0-9]. *)
Definition is_digit (c : char) : bool :=
  (N.leb 48 c && N.leb c 57)%N.

(** White space and line terminators: what [\s] matches and what
    [String.prototype.trim] strips. *)
Definition is_white_space (c : char) : bool :=
  ((N.leb 9 c && N.leb c 13) || N.eqb c 32 || N.eqb c 160 || N.eqb c 5760
   || (N.leb 8192 c && N.leb c 8202) || N.eqb c 8232 || N.eqb c 8233
   || N.eqb c 8239 || N.eqb c 8287 || N.eqb c 12288 || N.eqb c 65279)%N.

Fixpoint trimStart (s : str) : str :=
  match s with
  | [] => []
  | c :: s' => if is_white_space c then trimStart s' else s
  end.

Definition trimEnd (s : str) : str := rev (trimStart (rev s)).

(** [s.trim()] *)
Definition trim (s : str) : str := trimEnd (trimStart s).

(** [s.split(sep)] for a separator of one code unit: the pieces between the
    separators, the empty string giving one empty piece. *)
Fixpoint split (sep : char) (s : str) : list str :=
  match s with
  | [] => [[]]
  | c :: s' =>
      if N.eqb c sep then [] :: split sep s'
      else match split sep s' with
           | piece :: pieces => (c :: piece) :: pieces
           | [] => [[c]]
           end
  end.

Definition newline : char := 10%N.

(** [a < b] on strings: code unit by code unit, a proper prefix first. *)
Fixpoint str_ltb (a b : str) : bool :=
  match a, b with
  | _, [] => false
  | [], _ :: _ => true
  | x :: a', y :: b' =>
      if N.ltb x y then true
      else if N.ltb y x then false
      else str_ltb a' b'
  end.

(** ** The regular expressions of the sources

    A backtracking matcher for the constructs that the description regex
    uses: character classes, sequence, alternation, the greedy [+] over a
    class, one capture group, positive lookahead and the end anchor.  The
    matcher works on the text that remains after the current position, which
    is all these constructs can see. *)

Inductive regex : Type :=
| Class (p : char -> bool)
| Seq (r1 r2 : regex)
| Alt (r1 r2 : regex)
| Plus (p : char -> bool)
| Group (r : regex)
| Ahead (r : regex)
| EndOfInput.

(** The text after the current position and the text captured by group 1. *)
Record mstate : Type := MState { rest : str; capture : option str }.

(** Greedy [p+] followed by [k]: the longest run first, one character less on
    each backtrack, at least one character. *)
Fixpoint plus_greedy {A : Type} (p : char -> bool) (k : str -> option A)
  (s : str) : option A :=
  match s with
  | [] => None
  | c :: s' =>
      if p c then
        match plus_greedy p k s' with
        | Some r => Some r
        | None => k s'
        end
      else None
  end.

(** [matcher r k st]: match [r] at [st], then continue with [k]; [None] when
    every alternative fails. *)
Fixpoint matcher (r : regex) (k : mstate -> option mstate) (st : mstate)
  : option mstate :=
  match r with
  | Class p =>
      match rest st with
      | c :: s' => if p c then k (MState s' (capture st)) else None
      | [] => None
      end
  | Seq r1 r2 => matcher r1 (matcher r2 k) st
  | Alt r1 r2 =>
      match matcher r1 k st with
      | Some res => Some res
      | None => matcher r2 k st
      end
  | Plus p =>
      plus_greedy p (fun s' => k (MState s' (capture st))) (rest st)
  | Group r1 =>
      matcher r1
        (fun st' =>
           k (MState (rest st')
                (Some (firstn (length (rest st) - length (rest st')) (rest st)))))
        st
  | Ahead r1 =>
      match matcher r1 (fun st' => Some st') st with
      | Some st' => k (MState (rest st) (capture st'))
      | None => None
      end
  | EndOfInput =>
      match rest st with
      | [] => k st
      | _ :: _ => None
      end
  end.

(** One attempt at the current position. *)
Definition match_here (r : regex) (s : str) : option mstate :=
  matcher r (fun st => Some st) (MState s None).

(** [regex.exec] of a global regex, from [lastIndex] on: the first position
    at which the regex matches, the end of the input included. *)
Fixpoint exec (r : regex) (s : str) : option mstate :=
  match match_here r s with
  | Some st => Some st
  | None =>
      match s with
      | [] => None
      | _ :: s' => exec r s'
      end
  end.

(** [/\d+\.\s([^\d]+)(?=(?:\d+\.|$))/g] *)
Definition full_stop : char := 46%N.

Definition numbered_step : regex :=
  Seq (Plus is_digit)
    (Seq (Class (N.eqb full_stop))
       (Seq (Class is_white_space)
          (Seq (Group (Plus (fun c => negb (is_digit c))))
             (Ahead (Alt (Seq (Plus is_digit) (Class (N.eqb full_stop)))
                       EndOfInput))))).

(** ** Rendered descriptions *)

Inductive ReactNode : Type :=
| OrderedList (items : list str)   (* <ol> with one <li> per item *)
| Paragraph (text : str).          (* <p> *)

(** [formatDescription] *)
Definition formatDescription (desc : str) : ReactNode :=
  let steps :=
    filter (fun line => negb (str_eqb (trim line) [])) (split newline desc) in
  if Nat.ltb 1 (length steps) then OrderedList steps else Paragraph desc.

(** The [while ((match = regex.exec(desc)) !== null)] loop of
    [formatDescriptionSmart]: each round resumes where the last match ended
    and pushes [match[1].trim()].  A match consumes at least one code unit,
    so [S (length desc)] rounds always suffice ([collect_steps_fuel]), and it
    always sets group 1 ([exec_numbered_step]), so the branch without a
    capture is never taken. *)
Fixpoint collect_steps (fuel : nat) (s : str) : list str :=
  match fuel with
  | O => []
  | S fuel' =>
      match exec numbered_step s with
      | Some st =>
          match capture st with
          | Some text => trim text :: collect_steps fuel' (rest st)
          | None => collect_steps fuel' (rest st)
          end
      | None => []
      end
  end.

Definition numbered_steps (desc : str) : list str :=
  collect_steps (S (length desc)) desc.

(** [formatDescriptionSmart] *)
Definition formatDescriptionSmart (desc : str) : ReactNode :=
  let matches := numbered_steps desc in
  if Nat.ltb 0 (length matches) then OrderedList matches
  else formatDescription desc.

(** ** JSON values and the JavaScript engine

    What [JSON.parse] and [response.json()] produce.  A property read that
    finds nothing gives [undefined], written [None] in a [value]. *)

Inductive json : Type :=
| JNull
| JBool (b : bool)
| JNum (x : float)
| JStr (s : str)
| JArr (items : list json)
| JObj (props : list (str * json)).

Definition value := option json.

(** The engine's own functions, which the sources call and do not define. *)
Class Engine : Type := {
  (** [JSON.parse(text)]; [None] when it throws a SyntaxError *)
  JSON_parse : str -> option json;
  (** [JSON.stringify(v, null, space)] for a parsed value *)
  JSON_stringify : json -> N -> str;
  (** [String(x)] for a number *)
  Number_toString : float -> str
}.

(** ToBoolean *)
Definition truthy (v : value) : bool :=
  match v with
  | None | Some JNull => false
  | Some (JBool b) => b
  | Some (JNum x) => negb (PrimFloat.eqb x 0 || negb (PrimFloat.eqb x x))
  | Some (JStr s) => negb (str_eqb s [])
  | Some (JArr _) | Some (JObj _) => true
  end.

(** [a || b] *)
Definition or_else (a b : value) : value := if truthy a then a else b.

(** [a ?? b] *)
Definition nullish (a b : value) : value :=
  match a with
  | None | Some JNull => b
  | Some _ => a
  end.

Fixpoint lookup (name : str) (props : list (str * json)) : value :=
  match props with
  | [] => None
  | (key, v) :: props' => if str_eqb key name then Some v else lookup name props'
  end.

Fixpoint join (sep : str) (pieces : list str) : str :=
  match pieces with
  | [] => []
  | [piece] => piece
  | piece :: pieces' => piece ++ sep ++ join sep pieces'
  end.

(** ToString of a parsed value; an array joins its elements with commas, its
    [null] elements giving the empty string. *)
Fixpoint ToString {E : Engine} (v : json) : str :=
  match v with
  | JNull => lit "null"
  | JBool true => lit "true"
  | JBool false => lit "false"
  | JNum x => Number_toString x
  | JStr s => s
  | JArr items =>
      join (lit ",")
        (List.map (fun item => match item with
                               | JNull => []
                               | _ => ToString item
                               end) items)
  | JObj _ => lit "[object Object]"
  end.

(** ** Exceptions and awaited results *)

(** A thrown error: its [message], and the [response] property that
    [uploadDocument] attaches. *)
Record exn : Type := Exn { message : str; response_of : value }.

Definition Error (msg : str) : exn := Exn msg None.

Inductive outcome (A : Type) : Type :=
| Returned (a : A)
| Thrown (e : exn).

Arguments Returned {A} a.
Arguments Thrown {A} e.

Definition bind {A B : Type} (o : outcome A) (f : A -> outcome B) : outcome B :=
  match o with
  | Returned a => f a
  | Thrown e => Thrown e
  end.

Notation "x <- o ;; k" := (bind o (fun x => k))
  (at level 61, o at next level, right associativity).

(** [try { body } catch { handler }] around a computation of a value. *)
Definition try_catch {A : Type} (body : outcome A) (handler : exn -> A) : A :=
  match body with
  | Returned a => a
  | Thrown e => handler e
  end.

(** The engine's message for a property read on [null] (V8's wording). *)
Definition null_read_message (name : str) : str :=
  lit "Cannot read properties of null (reading '" ++ name ++ lit "')".

(** [v.name] *)
Definition get (name : str) (v : json) : outcome value :=
  match v with
  | JNull => Thrown (Error (null_read_message name))
  | JObj props => Returned (lookup name props)
  | _ => Returned None
  end.

(** ** HTTP responses *)

(** A response as the client reads it: [status], [statusText] and what
    [response.json()] resolves to, or the message of the SyntaxError it
    rejects with. *)
Record response : Type := Response {
  status : N;
  statusText : str;
  body : str + json
}.

(** [response.ok]: a status in 200..299 *)
Definition ok (r : response) : bool :=
  (N.leb 200 (status r) && N.leb (status r) 299)%N.

(** [await response.json()] *)
Definition json_of (r : response) : outcome json :=
  match body r with
  | inr v => Returned v
  | inl msg => Thrown (Error msg)
  end.

(** What [await fetch(...)] meets: a response, or a rejection (no response at
    all) with the engine's message. *)
Inductive fetched : Type :=
| Responded (r : response)
| Rejected (msg : str).

Definition fetch (net : fetched) : outcome response :=
  match net with
  | Responded r => Returned r
  | Rejected msg => Thrown (Error msg)
  end.

(** ** Input data of a test case card *)

Section InputData.
Context {E : Engine}.

(** [formatInputData]: the [try] block parses and prints, the [catch] block
    returns the input. *)
Definition formatInputData (input : str) : str :=
  match JSON_parse input with
  | Some obj => JSON_stringify obj 2
  | None => input
  end.

End InputData.

(** ** The API client ([apiService])

    Each operation performs one [fetch]; [net] is what that fetch meets.
    The arguments of an operation only shape the request (see [api_call]
    below), so the operations are given here as functions of [net].  The
    three mock operations of the client ([getProcessingStatus],
    [generateTestCases], [getGeneratedTestCases]) perform no HTTP call. *)

Section ApiService.
Context {E : Engine}.

Definition pushToJira (net : fetched) : outcome json :=
  response <- fetch net ;;
  if negb (ok response) then
    let errorMsg : value :=
      Some (JStr (lit "Failed to push test cases to Jira.")) in
    let errorMsg : value :=
      try_catch
        (errData <- json_of response ;;
         detail <- get (lit "detail") errData ;;
         Returned (or_else detail errorMsg))
        (fun _ => errorMsg) in
    Thrown (Error (match errorMsg with
                   | Some v => ToString v
                   | None => lit "undefined"
                   end))
  else json_of response.

Definition uploadDocument (net : fetched) : outcome json :=
  response <- fetch net ;;
  if negb (ok response) then
    let errorData :=
      try_catch (json_of response)
        (fun _ => JObj [(lit "detail", JStr (statusText response))]) in
    Thrown (Exn (lit "Upload failed: " ++ statusText response)
              (Some (JObj [(lit "data", errorData)])))
  else json_of response.

Definition extractFeatures (net : fetched) : outcome json :=
  response <- fetch net ;;
  if negb (ok response) then
    Thrown (Error (lit "Feature extraction failed: " ++ statusText response))
  else json_of response.

Definition getExtractedRequirements (net : fetched) : outcome json :=
  data <- extractFeatures net ;;
  requirements <- get (lit "requirements") data ;;
  match or_else requirements (Some (JArr [])) with
  | Some v => Returned v
  | None => Returned (JArr [])
  end.

Definition getUploadedFiles (net : fetched) : outcome json :=
  response <- fetch net ;;
  if negb (ok response) then
    Thrown (Error (lit "Failed to fetch files: " ++ statusText response))
  else json_of response.

Definition getRequirements (net : fetched) : outcome json :=
  response <- fetch net ;;
  if negb (ok response) then
    Thrown (Error (lit "Failed to fetch requirements: " ++ statusText response))
  else json_of response.

Definition generateTestCasesForRequirement (net : fetched) : outcome json :=
  response <- fetch net ;;
  if negb (ok response) then
    Thrown (Error (lit "Failed to generate test cases: " ++ statusText response))
  else json_of response.

Definition getTestCases (net : fetched) : outcome json :=
  response <- fetch net ;;
  if negb (ok response) then
    Thrown (Error (lit "Failed to fetch test cases: " ++ statusText response))
  else json_of response.

Definition getTestCasesByFile (net : fetched) : outcome json :=
  response <- fetch net ;;
  if negb (ok response) then
    Thrown (Error (lit "Failed to fetch test cases for file: "
                   ++ statusText response))
  else json_of response.

Definition generateTestCasesForFile (net : fetched) : outcome json :=
  response <- fetch net ;;
  if negb (ok response) then
    Thrown (Error (lit "Failed to generate test cases for file: "
                   ++ statusText response))
  else json_of response.

Definition improveTestCase (net : fetched) : outcome json :=
  response <- fetch net ;;
  if negb (ok response) then
    Thrown (Error (lit "Failed to improve test case"))
  else json_of response.

Definition getComplianceMetrics (net : fetched) : outcome json :=
  response <- fetch net ;;
  if negb (ok response) then
    Thrown (Error (lit "Failed to fetch compliance metrics: "
                   ++ statusText response))
  else json_of response.

(** The operations that perform an HTTP call, by name. *)
Inductive operation : Type :=
| PushToJira
| UploadDocument
| ExtractFeatures
| GetExtractedRequirements
| GetUploadedFiles
| GetRequirements
| GenerateTestCasesForRequirement
| GetTestCases
| GetTestCasesByFile
| GenerateTestCasesForFile
| ImproveTestCase
| GetComplianceMetrics.

Definition perform (op : operation) : fetched -> outcome json :=
  match op with
  | PushToJira => pushToJira
  | UploadDocument => uploadDocument
  | ExtractFeatures => extractFeatures
  | GetExtractedRequirements => getExtractedRequirements
  | GetUploadedFiles => getUploadedFiles
  | GetRequirements => getRequirements
  | GenerateTestCasesForRequirement => generateTestCasesForRequirement
  | GetTestCases => getTestCases
  | GetTestCasesByFile => getTestCasesByFile
  | GenerateTestCasesForFile => generateTestCasesForFile
  | ImproveTestCase => improveTestCase
  | GetComplianceMetrics => getComplianceMetrics
  end.

End ApiService.

(** ** The data model *)

Module Requirement.
Record t : Type := Make {
  requirement_id : str;
  req_title_id : str;
  title : str;
  description : str;
  file_id : str
}.
End Requirement.

Module TestCase.
Record t : Type := Make {
  tc_id : str;
  tc_title : str;
  tc_description : str;
  expected_result : str;
  input_data : str;
  compliance_tags : str;
  risk : str;
  created_at : str
}.
End TestCase.

Module GroupedRequirement.
Record t : Type := Make {
  requirement_id : str;
  req_title_id : str;
  req_title : str;
  requirement_description : str;
  test_cases : list TestCase.t
}.
End GroupedRequirement.

(** ** Display ordering ([sortedTestCases])

    [Array.prototype.sort] is stable, and with a comparator that is a total
    preorder its result is determined; it is computed here by insertion.
    [compare a b] is the number the comparator returns. *)

Definition compare_keys (a b : str) : Z :=
  if str_ltb a b then (-1)%Z else if str_ltb b a then 1%Z else 0%Z.

Fixpoint insert_sorted {A : Type} (compare : A -> A -> Z) (x : A) (l : list A)
  : list A :=
  match l with
  | [] => [x]
  | y :: l' =>
      if Z.ltb 0 (compare x y) then y :: insert_sorted compare x l'
      else x :: l
  end.

Fixpoint sort {A : Type} (compare : A -> A -> Z) (l : list A) : list A :=
  match l with
  | [] => []
  | x :: l' => insert_sorted compare x (sort compare l')
  end.

Definition with_test_cases (req : GroupedRequirement.t)
  (cases : list TestCase.t) : GroupedRequirement.t :=
  GroupedRequirement.Make
    (GroupedRequirement.requirement_id req)
    (GroupedRequirement.req_title_id req)
    (GroupedRequirement.req_title req)
    (GroupedRequirement.requirement_description req)
    cases.

Definition sort_test_cases (cases : list TestCase.t) : list TestCase.t :=
  sort (fun a b => compare_keys (TestCase.tc_id a) (TestCase.tc_id b)) cases.

Definition sortedTestCases (groupedTestCases : list GroupedRequirement.t)
  : list GroupedRequirement.t :=
  List.map
    (fun req =>
       with_test_cases req (sort_test_cases (GroupedRequirement.test_cases req)))
    (sort
       (fun a b =>
          compare_keys (GroupedRequirement.req_title_id a)
            (GroupedRequirement.req_title_id b))
       groupedTestCases).

(** ** The reports screen: the compliance-tag filter *)

Module ReportTestCase.
Record t : Type := Make {
  tc_id : str;
  tc_title : str;
  risk : str;
  compliance_tags : list str;
  req_title : str;
  tc_description : str;
  expected_result : str;
  input_data : str;
  created_at : str
}.
End ReportTestCase.

Record ComplianceMetrics : Type := {
  metrics_file_id : str;
  total_test_cases : N;
  metrics_compliance_tags : list str;
  test_cases : list ReportTestCase.t
}.

(** [array.includes(x)] on strings *)
Definition includes (x : str) (array : list str) : bool :=
  existsb (str_eqb x) array.

(** [filteredTestCases]: [metrics?.test_cases?.filter(...) || []] *)
Definition filteredTestCases (metrics : option ComplianceMetrics)
  (complianceFilter : list str) : list ReportTestCase.t :=
  match metrics with
  | Some m =>
      filter
        (fun tc =>
           if Nat.eqb (length complianceFilter) 0 then true
           else existsb (fun tag => includes tag complianceFilter)
                  (ReportTestCase.compliance_tags tc))
        (test_cases m)
  | None => []
  end.

(** ** Requests of the screens and asynchronous handlers *)

Module ImproveModalData.
Record t : Type := Make {
  file_id : str;
  requirement_id : str;
  tc_id : str;
  original_description : str
}.
End ImproveModalData.

Module ImprovePayload.
Record t : Type := Make {
  file_id : str;
  requirement_id : str;
  tc_id : str;
  original_description : str;
  user_input : str
}.
End ImprovePayload.

(** A call of the API client as a screen issues it: the operation and the
    argument that shapes its request. *)
Inductive api_call : Type :=
| CallGetTestCasesByFile (fileId : str)
| CallGetRequirements (fileId : str)
| CallGenerateTestCasesForRequirement (requirementId : str)
| CallGenerateTestCasesForFile (fileId : str)
| CallImproveTestCase (payload : ImprovePayload.t)
| CallPushToJira (fileId : str).

Definition operation_of (c : api_call) : operation :=
  match c with
  | CallGetTestCasesByFile _ => GetTestCasesByFile
  | CallGetRequirements _ => GetRequirements
  | CallGenerateTestCasesForRequirement _ => GenerateTestCasesForRequirement
  | CallGenerateTestCasesForFile _ => GenerateTestCasesForFile
  | CallImproveTestCase _ => ImproveTestCase
  | CallPushToJira _ => PushToJira
  end.

(** An [async] handler: it finishes with a result, or awaits a call and goes
    on with what the call returned or threw.  A call is issued only when the
    handler reaches its [Await], so the calls of a handler are issued one
    after the other. *)
Inductive proc (A : Type) : Type :=
| Done (a : A)
| Await (c : api_call) (k : outcome json -> proc A).

Arguments Done {A} a.
Arguments Await {A} c k.

(** The network: what the fetch of a call meets, given the calls issued
    before it. *)
Definition network := list api_call -> api_call -> fetched.

Section Handlers.
Context {E : Engine}.

(** Runs a handler: its result and the calls issued, oldest first, after
    those of [issued]. *)
Fixpoint run {A : Type} (net : network) (issued : list api_call) (p : proc A)
  : A * list api_call :=
  match p with
  | Done a => (a, issued)
  | Await c k =>
      run net (issued ++ [c]) (k (perform (operation_of c) (net issued c)))
  end.

(** [for (const x of xs) { await call(x); }] inside a [try]: [next] after the
    loop, [failed] as soon as a call throws. *)
Fixpoint for_each_await {A : Type} (xs : list str) (call : str -> api_call)
  (next : proc A) (failed : exn -> proc A) : proc A :=
  match xs with
  | [] => next
  | x :: xs' =>
      Await (call x)
        (fun o =>
           match o with
           | Returned _ => for_each_await xs' call next failed
           | Thrown e => failed e
           end)
  end.

(** ** The generation screen ([TestGeneration])

    The state of the component, one field per [useState] hook that the
    handlers below read or write.  [groupedTestCases] and [success] hold what
    the API returned, as received. *)

Inductive GenerationOption : Type := OptionFile | OptionRequirements.

Record state : Type := State {
  selectedFile : str;
  requirements : list Requirement.t;
  selectedRequirements : list str;
  groupedTestCases : json;
  loadingTestCases : bool;
  loadingGenerate : bool;
  loadingImprove : bool;
  error : str;
  success : json;
  generationOption : GenerationOption;
  showImproveModal : bool;
  improveModalData : option ImproveModalData.t;
  improveInput : str;
  improvedDescription : value
}.

Definition setSelectedFile (x : str) (s : state) : state :=
  State x (requirements s) (selectedRequirements s) (groupedTestCases s)
    (loadingTestCases s) (loadingGenerate s) (loadingImprove s) (error s)
    (success s) (generationOption s) (showImproveModal s) (improveModalData s)
    (improveInput s) (improvedDescription s).

Definition setRequirements (x : list Requirement.t) (s : state) : state :=
  State (selectedFile s) x (selectedRequirements s) (groupedTestCases s)
    (loadingTestCases s) (loadingGenerate s) (loadingImprove s) (error s)
    (success s) (generationOption s) (showImproveModal s) (improveModalData s)
    (improveInput s) (improvedDescription s).

Definition setSelectedRequirements (x : list str) (s : state) : state :=
  State (selectedFile s) (requirements s) x (groupedTestCases s)
    (loadingTestCases s) (loadingGenerate s) (loadingImprove s) (error s)
    (success s) (generationOption s) (showImproveModal s) (improveModalData s)
    (improveInput s) (improvedDescription s).

Definition setGroupedTestCases (x : json) (s : state) : state :=
  State (selectedFile s) (requirements s) (selectedRequirements s) x
    (loadingTestCases s) (loadingGenerate s) (loadingImprove s) (error s)
    (success s) (generationOption s) (showImproveModal s) (improveModalData s)
    (improveInput s) (improvedDescription s).

Definition setLoadingTestCases (x : bool) (s : state) : state :=
  State (selectedFile s) (requirements s) (selectedRequirements s)
    (groupedTestCases s) x (loadingGenerate s) (loadingImprove s) (error s)
    (success s) (generationOption s) (showImproveModal s) (improveModalData s)
    (improveInput s) (improvedDescription s).

Definition setLoadingGenerate (x : bool) (s : state) : state :=
  State (selectedFile s) (requirements s) (selectedRequirements s)
    (groupedTestCases s) (loadingTestCases s) x (loadingImprove s) (error s)
    (success s) (generationOption s) (showImproveModal s) (improveModalData s)
    (improveInput s) (improvedDescription s).

Definition setLoadingImprove (x : bool) (s : state) : state :=
  State (selectedFile s) (requirements s) (selectedRequirements s)
    (groupedTestCases s) (loadingTestCases s) (loadingGenerate s) x (error s)
    (success s) (generationOption s) (showImproveModal s) (improveModalData s)
    (improveInput s) (improvedDescription s).

Definition setError (x : str) (s : state) : state :=
  State (selectedFile s) (requirements s) (selectedRequirements s)
    (groupedTestCases s) (loadingTestCases s) (loadingGenerate s)
    (loadingImprove s) x (success s) (generationOption s) (showImproveModal s)
    (improveModalData s) (improveInput s) (improvedDescription s).

Definition setSuccess (x : json) (s : state) : state :=
  State (selectedFile s) (requirements s) (selectedRequirements s)
    (groupedTestCases s) (loadingTestCases s) (loadingGenerate s)
    (loadingImprove s) (error s) x (generationOption s) (showImproveModal s)
    (improveModalData s) (improveInput s) (improvedDescription s).

Definition setGenerationOption (x : GenerationOption) (s : state) : state :=
  State (selectedFile s) (requirements s) (selectedRequirements s)
    (groupedTestCases s) (loadingTestCases s) (loadingGenerate s)
    (loadingImprove s) (error s) (success s) x (showImproveModal s)
    (improveModalData s) (improveInput s) (improvedDescription s).

Definition setShowImproveModal (x : bool) (s : state) : state :=
  State (selectedFile s) (requirements s) (selectedRequirements s)
    (groupedTestCases s) (loadingTestCases s) (loadingGenerate s)
    (loadingImprove s) (error s) (success s) (generationOption s) x
    (improveModalData s) (improveInput s) (improvedDescription s).

Definition setImproveModalData (x : option ImproveModalData.t) (s : state) :
    state :=
  State (selectedFile s) (requirements s) (selectedRequirements s)
    (groupedTestCases s) (loadingTestCases s) (loadingGenerate s)
    (loadingImprove s) (error s) (success s) (generationOption s)
    (showImproveModal s) x (improveInput s) (improvedDescription s).

Definition setImproveInput (x : str) (s : state) : state :=
  State (selectedFile s) (requirements s) (selectedRequirements s)
    (groupedTestCases s) (loadingTestCases s) (loadingGenerate s)
    (loadingImprove s) (error s) (success s) (generationOption s)
    (showImproveModal s) (improveModalData s) x (improvedDescription s).

Definition setImprovedDescription (x : value) (s : state) : state :=
  State (selectedFile s) (requirements s) (selectedRequirements s)
    (groupedTestCases s) (loadingTestCases s) (loadingGenerate s)
    (loadingImprove s) (error s) (success s) (generationOption s)
    (showImproveModal s) (improveModalData s) (improveInput s) x.

Definition empty_string : json := JStr [].

Definition initial_state : state :=
  State [] [] [] (JArr []) false false false [] empty_string OptionFile false
    None [] (Some empty_string).

(** [setGroupedTestCases(data.requirements || [])] inside a [try] *)
Definition refreshed (o : outcome json) (s : state) : outcome state :=
  data <- o ;;
  requirements <- get (lit "requirements") data ;;
  match or_else requirements (Some (JArr [])) with
  | Some v => Returned (setGroupedTestCases v s)
  | None => Returned (setGroupedTestCases (JArr []) s)
  end.

(** [handleFileChange] *)
Definition handleFileChange (fileId : str) (s : state) : state :=
  setSuccess empty_string
    (setError []
       (setGenerationOption OptionFile
          (setSelectedRequirements []
             (setRequirements []
                (setGroupedTestCases (JArr []) (setSelectedFile fileId s)))))).

(** The [.then] of [fetchRequirements]: [setRequirements(data)] *)
Definition requirementsFetched (data : list Requirement.t) (s : state) : state :=
  setLoadingTestCases false (setRequirements data s).

(** [handleSelectAllRequirements] *)
Definition handleSelectAllRequirements (s : state) : state :=
  if Nat.eqb (length (selectedRequirements s)) (length (requirements s)) then
    setSelectedRequirements [] s
  else
    setSelectedRequirements
      (List.map Requirement.requirement_id (requirements s)) s.

(** [handleRequirementToggle] *)
Definition handleRequirementToggle (id : str) (s : state) : state :=
  let prev := selectedRequirements s in
  setSelectedRequirements
    (if includes id prev then filter (fun rid => negb (str_eqb rid id)) prev
     else prev ++ [id])
    s.

(** [handleGenerateForRequirements] *)
Definition handleGenerateForRequirements (s : state) : proc state :=
  if Nat.eqb (length (selectedRequirements s)) 0 then
    Done (setError (lit "Please select at least one requirement.") s)
  else
    let s := setSuccess empty_string (setError [] (setLoadingGenerate true s)) in
    let failed (s : state) :=
      setLoadingGenerate false
        (setError
           (lit "Failed to generate test cases for selected requirements.") s) in
    for_each_await (selectedRequirements s) CallGenerateTestCasesForRequirement
      (let s :=
         setSuccess (JStr (lit "Test cases generated for selected requirements."))
           s in
       Await (CallGetTestCasesByFile (selectedFile s))
         (fun o =>
            Done (try_catch
                    (s' <- refreshed o s ;; Returned (setLoadingGenerate false s'))
                    (fun _ => failed s))))
      (fun _ => Done (failed s)).

(** [handleOpenImproveModal] *)
Definition handleOpenImproveModal (data : ImproveModalData.t) (s : state)
  : state :=
  setShowImproveModal true
    (setImprovedDescription (Some empty_string)
       (setImproveInput [] (setImproveModalData (Some data) s))).

(** The [onChange] of the suggestions box: [setImproveInput(e.target.value)] *)
Definition handleImproveInput (text : str) (s : state) : state :=
  setImproveInput text s.

(** [handleImproveSubmit] *)
Definition handleImproveSubmit (s : state) : proc state :=
  match improveModalData s with
  | None => Done s
  | Some data =>
      let s := setError [] (setLoadingImprove true s) in
      Await
        (CallImproveTestCase
           (ImprovePayload.Make
              (ImproveModalData.file_id data)
              (ImproveModalData.requirement_id data)
              (ImproveModalData.tc_id data)
              (ImproveModalData.original_description data)
              (improveInput s)))
        (fun o =>
           Done
             (setLoadingImprove false
                (try_catch
                   (result <- o ;;
                    improved <- get (lit "improved_description") result ;;
                    msg <- get (lit "message") result ;;
                    Returned
                      (setSuccess
                         (match or_else msg
                                  (Some (JStr (lit "Test case improved."))) with
                          | Some v => v
                          | None => JStr (lit "Test case improved.")
                          end)
                         (setImprovedDescription improved s)))
                   (fun _ => setError (lit "Failed to improve test case.") s))))
  end.

(** [handleCloseImproveModal] *)
Definition handleCloseImproveModal (s : state) : proc state :=
  let s := setShowImproveModal false s in
  if truthy (improvedDescription s) then
    let s := setLoadingTestCases true s in
    Await (CallGetTestCasesByFile (selectedFile s))
      (fun o =>
         Done
           (setLoadingTestCases false
              (try_catch (refreshed o s)
                 (fun _ =>
                    setError
                      (lit "Failed to refresh test cases after improvement.")
                      s))))
  else Done s.

End Handlers.

(** ** The integration screen ([IntegrationHub]) *)

Inductive JiraStatus : Type := idle | loading | success_status | error_status.

Record hub : Type := Hub {
  selectedFileId : str;
  jiraStatus : JiraStatus;
  jiraMessage : value;
  jiraCount : value
}.

Definition setJiraStatus (x : JiraStatus) (h : hub) : hub :=
  Hub (selectedFileId h) x (jiraMessage h) (jiraCount h).

Definition setJiraMessage (x : value) (h : hub) : hub :=
  Hub (selectedFileId h) (jiraStatus h) x (jiraCount h).

Definition setJiraCount (x : value) (h : hub) : hub :=
  Hub (selectedFileId h) (jiraStatus h) (jiraMessage h) x.

(** The [onChange] of the document selector *)
Definition setSelectedFileId (x : str) (h : hub) : hub :=
  Hub x (jiraStatus h) (jiraMessage h) (jiraCount h).

Definition initial_hub : hub := Hub [] idle (Some empty_string) (Some JNull).

(** A handler together with what its screen shows while it waits:
    [Pending shown c k] is the handler at an [await] of the call [c], with
    the state updates made before the [await] rendered in [shown]. *)
Inductive rendered (S : Type) : Type :=
| Settled (s : S)
| Pending (shown : S) (c : api_call) (k : outcome json -> rendered S).

Arguments Settled {S} s.
Arguments Pending {S} shown c k.

(** The handler of a rendered handler: the states in between left out. *)
Fixpoint handler_of {S : Type} (r : rendered S) : proc S :=
  match r with
  | Settled s => Done s
  | Pending _ c k => Await c (fun o => handler_of (k o))
  end.

Section Integration.
Context {E : Engine}.

(** The [catch (err)] block of [handlePushToJira] *)
Definition push_failed (err : exn) (h : hub) : hub :=
  setJiraMessage
    (or_else (Some (JStr (message err)))
       (Some (JStr (lit "Failed to push test cases to Jira."))))
    (setJiraStatus error_status h).

(** The state in which [handlePushToJira] awaits the call: what the screen
    shows while the push is pending. *)
Definition push_started (h : hub) : hub :=
  setJiraCount (Some JNull)
    (setJiraMessage (Some empty_string) (setJiraStatus loading h)).

(** [handlePushToJira], with the state that the screen renders while the
    push is pending: the updates made before the [await]. *)
Definition handlePushToJira_rendered (h : hub) : rendered hub :=
  if str_eqb (selectedFileId h) [] then Settled h
  else
    let h := push_started h in
    Pending h (CallPushToJira (selectedFileId h))
      (fun o =>
         match o with
         | Thrown err => Settled (push_failed err h)
         | Returned result =>
             let h := setJiraStatus success_status h in
             match get (lit "pushed_count") result with
             | Thrown err => Settled (push_failed err h)
             | Returned pushed_count =>
                 let h := setJiraCount (or_else pushed_count (Some JNull)) h in
                 match get (lit "message") result with
                 | Thrown err => Settled (push_failed err h)
                 | Returned msg =>
                     Settled
                       (setJiraMessage
                          (or_else msg
                             (Some
                                (JStr
                                   (lit "Successfully pushed test cases to Jira."))))
                          h)
                 end
             end
         end).

(** [handlePushToJira] as a handler: its calls and the state it ends in. *)
Definition handlePushToJira (h : hub) : proc hub :=
  handler_of (handlePushToJira_rendered h).

(** The states that a screen shows from the start of a handler to its end:
    the state rendered at each [await], then the state in which the handler
    ends. *)
Fixpoint shown_states {S : Type} (net : network) (issued : list api_call)
  (r : rendered S) : list S :=
  match r with
  | Settled s => [s]
  | Pending shown c k =>
      shown
      :: shown_states net (issued ++ [c])
           (k (perform (operation_of c) (net issued c)))
  end.

End Integration.

(** What the status area of the screen shows: literal text and the values
    of the expressions in braces. *)
Inductive child : Type :=
| Text (s : str)
| Expr (v : value).

Definition status_area (h : hub) : list child :=
  match jiraStatus h with
  | idle =>
      [Text (lit "Select a document and click push to send test cases to Jira.")]
  | loading => []
  | success_status =>
      [Text (lit "Successfully pushed ");
       Expr (nullish (jiraCount h) (Some empty_string));
       Text (lit " test cases to Jira.")]
  | error_status => [Expr (jiraMessage h)]
  end.

(** ** Descriptions written as numbered steps

    A description of the form ["1. a 2. b 3. c"]: segments separated by one
    space, each a number, a full stop, a space and its content. *)

Record segment : Type := Segment { number : str; content : str }.

Definition space : char := 32%N.

Definition segment_text (sg : segment) : str :=
  number sg ++ [full_stop; space] ++ content sg.

Fixpoint numbered (segs : list segment) : str :=
  match segs with
  | [] => []
  | [sg] => segment_text sg
  | sg :: segs' => segment_text sg ++ [space] ++ numbered segs'
  end.

(** A number is one or more digits. *)
Definition is_number (s : str) : Prop :=
  s <> [] /\ forallb is_digit s = true.

(** A content that the regex can take whole: not empty, no digit in it. *)
Definition plain_content (s : str) : Prop :=
  s <> [] /\ forallb (fun c => negb (is_digit c)) s = true.

Definition plain_segment (sg : segment) : Prop :=
  is_number (number sg) /\ plain_content (content sg).

(** A blank line: white space only. *)
Definition blank (line : str) : bool := forallb is_white_space line.

(** The lines of a description that are not blank. *)
Definition surviving_lines (desc : str) : list str :=
  filter (fun line => negb (blank line)) (split newline desc).

(** ** An engine for the examples

    The statements below hold for every engine.  The examples run on this
    one: its JSON reader knows the literals [null], [true] and [false], which
    it prints back, and it prints every number as [NaN]. *)

Definition example_parse (text : str) : option json :=
  if str_eqb text (lit "null") then Some JNull
  else if str_eqb text (lit "true") then Some (JBool true)
  else if str_eqb text (lit "false") then Some (JBool false)
  else None.

Definition example_stringify (v : json) (indent : N) : str :=
  match v with
  | JBool true => lit "true"
  | JBool false => lit "false"
  | _ => lit "null"
  end.

Definition example_engine : Engine :=
  Build_Engine example_parse example_stringify (fun _ => lit "NaN").

(** ** Orderings

    [ordered_by key l]: no element of [l] has a key below the key of an
    element before it.  [stable_arrangement key l l']: [l'] holds the elements
    of [l] in ascending order of their keys, elements of equal keys in the
    order they have in [l]. *)

Definition ordered_by {A : Type} (key : A -> str) (l : list A) : Prop :=
  StronglySorted (fun a b => str_ltb (key b) (key a) = false) l.

Definition stable_arrangement {A : Type} (key : A -> str) (l l' : list A)
  : Prop :=
  Permutation l l'
  /\ ordered_by key l'
  /\ forall k,
       filter (fun a => str_eqb (key a) k) l'
       = filter (fun a => str_eqb (key a) k) l.

(** A requirement as displayed: the requirement itself, its test cases
    rearranged. *)
Definition displayed_as (req out : GroupedRequirement.t) : Prop :=
  GroupedRequirement.requirement_id out = GroupedRequirement.requirement_id req
  /\ GroupedRequirement.req_title_id out = GroupedRequirement.req_title_id req
  /\ GroupedRequirement.req_title out = GroupedRequirement.req_title req
  /\ GroupedRequirement.requirement_description out
     = GroupedRequirement.requirement_description req
  /\ stable_arrangement TestCase.tc_id
       (GroupedRequirement.test_cases req) (GroupedRequirement.test_cases out).

(** Requirements and test cases for the examples, by their ids. *)
Definition example_test_case (id : str) : TestCase.t :=
  TestCase.Make id [] [] [] [] [] [] [].

Definition example_requirement (title_id : str) (cases : list TestCase.t)
  : GroupedRequirement.t :=
  GroupedRequirement.Make title_id title_id [] [] cases.

Definition example_report_case (id : str) (tags : list str)
  : ReportTestCase.t :=
  ReportTestCase.Make id [] [] tags [] [] [] [] [].

(** ** Selecting requirements: the events that change the selection *)

Inductive selection_event : Type :=
| RequirementsFetched (data : list Requirement.t)
| FileChanged (fileId : str)
| RequirementToggled (id : str)
| SelectAllClicked.

Definition selection_step (s : state) (ev : selection_event) : state :=
  match ev with
  | RequirementsFetched data => requirementsFetched data s
  | FileChanged fileId => handleFileChange fileId s
  | RequirementToggled id => handleRequirementToggle id s
  | SelectAllClicked => handleSelectAllRequirements s
  end.

(** The requirements of every fetch have ids that differ. *)
Definition distinct_ids (events : list selection_event) : Prop :=
  forall data,
    In (RequirementsFetched data) events ->
    NoDup (List.map Requirement.requirement_id data).

(** ** Calls and their results *)

Section Calls.
Context {E : Engine}.

(** What a call returns or throws when it is issued after [issued]. *)
Definition result_of (net : network) (issued : list api_call) (c : api_call)
  : outcome json :=
  perform (operation_of c) (net issued c).

Definition succeeds (net : network) (issued : list api_call) (c : api_call)
  : Prop :=
  exists v, result_of net issued c = Returned v.

Definition fails (net : network) (issued : list api_call) (c : api_call)
  : Prop :=
  exists e, result_of net issued c = Thrown e.

(** The calls that a handler issues, oldest first. *)
Definition calls_of {A : Type} (net : network) (p : proc A) : list api_call :=
  snd (run net [] p).

End Calls.

(** The generation calls for a list of requirement ids, in its order. *)
Definition generation_calls (ids : list str) : list api_call :=
  List.map CallGenerateTestCasesForRequirement ids.

(** A network on which every request fails with status 500. *)
Definition failing_network : network :=
  fun _ _ =>
    Responded
      (Response 500 (lit "Internal Server Error")
         (inl (lit "Unexpected token"))).

(** A network on which every request is answered with status 200 and an
    empty object. *)
Definition accepting_network : network :=
  fun _ _ => Responded (Response 200 (lit "OK") (inr (JObj []))).

(** A generation screen with a file and two requirements selected. *)
Definition example_selection : state :=
  setSelectedRequirements [lit "REQ-A"; lit "REQ-B"]
    (setSelectedFile (lit "file-1") initial_state).

(** ** A session of the improve modal

    Between the opening of the modal and its closing, the user types
    suggestions and submits them. *)

Inductive modal_action : Type :=
| SuggestionTyped (text : str)
| SubmitClicked.

(** One handler after another. *)
Fixpoint and_then {A B : Type} (p : proc A) (f : A -> proc B) : proc B :=
  match p with
  | Done a => f a
  | Await c k => Await c (fun o => and_then (k o) f)
  end.

Definition modal_step (a : modal_action) (s : state) : proc state :=
  match a with
  | SuggestionTyped text => Done (handleImproveInput text s)
  | SubmitClicked => handleImproveSubmit s
  end.

Fixpoint modal_actions (actions : list modal_action) (s : state) : proc state :=
  match actions with
  | [] => Done s
  | a :: actions' => and_then (modal_step a s) (modal_actions actions')
  end.

(** The modal opened on a test case, used, and closed. *)
Definition modal_session (data : ImproveModalData.t)
  (actions : list modal_action) (s : state) : proc state :=
  and_then (modal_actions actions (handleOpenImproveModal data s))
    handleCloseImproveModal.

Definition is_improve_call (c : api_call) : Prop :=
  operation_of c = ImproveTestCase.

(** The improved description that the modal holds after an improve call:
    the [improved_description] of what the call returned, or the one held
    before when the call threw. *)
Definition after_improve (held : value) (o : outcome json) : value :=
  match (result <- o ;; get (lit "improved_description") result) with
  | Returned improved => improved
  | Thrown _ => held
  end.

(** The improved description held after a series of improve calls, the modal
    having opened with the empty one. *)
Definition held_description (results : list (outcome json)) : value :=
  fold_left after_improve results (Some empty_string).

(** An improve call of the series returned an improved description that is
    not empty. *)
Definition improvement_produced (results : list (outcome json)) : Prop :=
  exists result improved,
    In (Returned result) results
    /\ get (lit "improved_description") result = Returned improved
    /\ truthy improved = true.

Section CallResults.
Context {E : Engine}.

(** The results of a series of calls issued after [issued]. *)
Fixpoint results_of (net : network) (issued calls : list api_call)
  : list (outcome json) :=
  match calls with
  | [] => []
  | c :: calls' => result_of net issued c :: results_of net (issued ++ [c]) calls'
  end.

End CallResults.

(** A network that answers the first request with an improved description
    and every later one with an empty improved description. *)
Definition improved_once_network : network :=
  fun issued _ =>
    match issued with
    | [] =>
        Responded
          (Response 200 (lit "OK")
             (inr (JObj [(lit "improved_description",
                          JStr (lit "Log in, then open the report"));
                         (lit "message", JStr (lit "Improved"))])))
    | _ :: _ =>
        Responded
          (Response 200 (lit "OK")
             (inr (JObj [(lit "improved_description", JStr []);
                         (lit "message", JStr (lit "Improved"))])))
    end.

Definition example_modal_data : ImproveModalData.t :=
  ImproveModalData.Make (lit "file-1") (lit "REQ-A") (lit "TC-1")
    (lit "Open the report").

(** ** Reading a response *)

(** The property [name] of a parsed body, [undefined] when the body is no
    object or has no such property. *)
Definition field (name : str) (v : json) : value :=
  match v with
  | JObj props => lookup name props
  | _ => None
  end.

(** The [detail] of the body of a response, [undefined] when the body is not
    JSON. *)
Definition detail_of (r : response) : value :=
  match body r with
  | inr v => field (lit "detail") v
  | inl _ => None
  end.

(** The operations whose error message ends with the status text. *)
Definition reports_status_text (op : operation) : bool :=
  match op with
  | PushToJira | ImproveTestCase => false
  | _ => true
  end.

(** The contract that one sentence would give all operations: an error
    exactly for a status outside 200..299, its message made from the status
    text or equal to the [detail] of the body; otherwise the parsed body. *)
Definition message_from_response (r : response) (msg : str) : Prop :=
  (exists prefix, msg = prefix ++ statusText r)
  \/ detail_of r = Some (JStr msg).

Definition uniform_contract {E : Engine} (op : operation) (r : response)
  : Prop :=
  match perform op (Responded r) with
  | Thrown e => ok r = false /\ message_from_response r (message e)
  | Returned v => ok r = true /\ body r = inr v
  end.

(** What the status area shows. *)
Definition displays (v : value) (h : hub) : Prop := In (Expr v) (status_area h).

(** A push answered with a count and a message. *)
Definition pushed_three_network : network :=
  fun _ _ =>
    Responded
      (Response 200 (lit "OK")
         (inr (JObj [(lit "pushed_count", JNum 3%float);
                     (lit "message", JStr (lit "Pushed 3 issues"))]))).

(** A push answered as the declared result type of [pushToJira] has it, the
    count under [requirements_pushed]. *)
Definition requirements_pushed_network : network :=
  fun _ _ =>
    Responded
      (Response 200 (lit "OK")
         (inr (JObj [(lit "requirements_pushed", JNum 3%float);
                     (lit "message", JStr (lit "Pushed 3 issues"))]))).

Definition example_hub : hub := setSelectedFileId (lit "file-1") initial_hub.

(** ** Regular expressions without a group *)

Fixpoint groupless (r : regex) : bool :=
  match r with
  | Class _ | Plus _ | EndOfInput => true
  | Seq r1 r2 | Alt r1 r2 => groupless r1 && groupless r2
  | Group _ => false
  | Ahead r1 => groupless r1
  end.

(** ** The test case card ([TestCaseCard]) *)

Definition pipe : char := 124%N.
Definition comma : char := 44%N.

(** [complianceTags.split('|').map(tag => tag.trim()).filter(Boolean)] *)
Definition card_tags (complianceTags : str) : list str :=
  filter (fun tag => negb (str_eqb tag []))
    (List.map trim (split pipe complianceTags)).

(** [tc.compliance_tags.replace(/,/g, '|')], as the screen passes the tags to
    the card *)
Definition commas_to_pipes (compliance_tags : str) : str :=
  List.map (fun c => if N.eqb c comma then pipe else c) compliance_tags.

(** The condition under which the card shows its input data:
    [inputData && inputData !== 'null' && inputData.trim() !== ''] *)
Definition shows_input_data (inputData : str) : bool :=
  negb (str_eqb inputData [])
  && negb (str_eqb inputData (lit "null"))
  && negb (str_eqb (trim inputData) []).

(** A tag as the card shows it: not empty, no white space around it, no
    separator in it. *)
Definition clean_tag (tag : str) : Prop :=
  tag <> [] /\ trim tag = tag /\ ~ In pipe tag /\ ~ In comma tag.

(** ** The cards of the generation screen

    The props that the screen gives to each [TestCaseCard], and the data
    with which the button of the card opens the improve modal. *)

Record card : Type := Card {
  requirementTitle : str;
  requirementId : str;
  testCaseId : str;
  testTitle : str;
  testDescription : str;
  expectedResult : str;
  inputData : str;
  complianceTags : str;
  risk : str;
  onRegenerate : ImproveModalData.t
}.

(** [sortedTestCases.map(req => req.test_cases.map(tc => <TestCaseCard ... />))] *)
Definition cards (selectedFile : str)
  (groupedTestCases : list GroupedRequirement.t) : list card :=
  flat_map
    (fun req =>
       List.map
         (fun tc =>
            Card (GroupedRequirement.req_title req)
              (GroupedRequirement.req_title_id req)
              (TestCase.tc_id tc) (TestCase.tc_title tc)
              (TestCase.tc_description tc) (TestCase.expected_result tc)
              (TestCase.input_data tc)
              (commas_to_pipes (TestCase.compliance_tags tc))
              (TestCase.risk tc)
              (ImproveModalData.Make selectedFile
                 (GroupedRequirement.requirement_id req)
                 (TestCase.tc_id tc) (TestCase.tc_description tc)))
         (GroupedRequirement.test_cases req))
    (sortedTestCases groupedTestCases).

(** The number in the heading "Existing Test Cases (n)":
    [sortedTestCases.reduce((acc, req) => acc + req.test_cases.length, 0)] *)
Definition existing_count (groupedTestCases : list GroupedRequirement.t) : nat :=
  fold_left
    (fun acc req => acc + length (GroupedRequirement.test_cases req))
    (sortedTestCases groupedTestCases) 0.

(** ** The other handlers of the generation screen *)

(** [handleGenerateForFile] *)
Definition handleGenerateForFile (s : state) : proc state :=
  let s := setSuccess empty_string (setError [] (setLoadingGenerate true s)) in
  let failed (s : state) :=
    setLoadingGenerate false
      (setError (lit "Failed to generate test cases for file.") s) in
  Await (CallGenerateTestCasesForFile (selectedFile s))
    (fun o =>
       match (result <- o ;; get (lit "message") result) with
       | Thrown _ => Done (failed s)
       | Returned msg =>
           let s :=
             setSuccess
               (match or_else msg
                        (Some (JStr (lit "Test cases generated successfully."))) with
                | Some v => v
                | None => JStr (lit "Test cases generated successfully.")
                end) s in
           Await (CallGetTestCasesByFile (selectedFile s))
             (fun o =>
                Done (try_catch
                        (s' <- refreshed o s ;;
                         Returned (setLoadingGenerate false s'))
                        (fun _ => failed s)))
       end).

(** The [onClick] of "Regenerate All" *)
Definition regenerateAll (s : state) : state :=
  setError []
    (setSuccess empty_string
       (setGenerationOption OptionFile (setGroupedTestCases (JArr []) s))).

(** The notification: [error || success], shown when it is truthy. *)
Definition notification (s : state) : value :=
  or_else (Some (JStr (error s))) (Some (success s)).

(** [disabled] of the generate button *)
Definition generate_disabled (s : state) : bool :=
  loadingGenerate s
  || match generationOption s with
     | OptionRequirements => Nat.eqb (length (selectedRequirements s)) 0
     | OptionFile => false
     end.

(** [onClick] of the generate button *)
Definition handleGenerateClick (s : state) : proc state :=
  match generationOption s with
  | OptionFile => handleGenerateForFile s
  | OptionRequirements => handleGenerateForRequirements s
  end.

(** [v.length === 0] for a value held by the screen *)
Definition has_length_zero (v : json) : outcome bool :=
  match v with
  | JNull => Thrown (Error (null_read_message (lit "length")))
  | JArr items => Returned (Nat.eqb (length items) 0)
  | JStr s => Returned (Nat.eqb (length s) 0)
  | JObj props =>
      Returned (match lookup (lit "length") props with
                | Some (JNum x) => PrimFloat.eqb x 0
                | _ => false
                end)
  | _ => Returned false
  end.

(** The condition under which the generation options and the generate
    button are shown: [selectedFile && groupedTestCases.length === 0] *)
Definition shows_generation_options (s : state) : outcome bool :=
  if str_eqb (selectedFile s) [] then Returned false
  else has_length_zero (groupedTestCases s).

Section FileSelection.
Context {E : Engine}.

(** The engine's conversion of a string to a number, and the unchecked
    reading of a response as [Requirement[]] that the type annotation of
    [fetchRequirements] stands for. *)
Variable StringToNumber : str -> float.
Variable as_requirements : json -> list Requirement.t.

(** [x > 0] *)
Definition greater_than_zero (x : value) : bool :=
  match x with
  | None | Some JNull => false
  | Some (JBool b) => b
  | Some (JNum n) => PrimFloat.ltb 0 n
  | Some (JStr s) => PrimFloat.ltb 0 (StringToNumber s)
  | Some v => PrimFloat.ltb 0 (StringToNumber (ToString v))
  end.

(** [data.requirements && data.requirements.length > 0] *)
Definition has_entries (requirements : value) : bool :=
  truthy requirements
  && match requirements with
     | Some (JArr items) => Nat.ltb 0 (length items)
     | Some (JStr s) => Nat.ltb 0 (length s)
     | Some (JObj props) => greater_than_zero (lookup (lit "length") props)
     | _ => false
     end.

(** The effect that runs when the selected file changes *)
Definition fileSelectedEffect (s : state) : proc state :=
  if str_eqb (selectedFile s) [] then
    Done (setSelectedRequirements []
            (setRequirements [] (setGroupedTestCases (JArr []) s)))
  else
    let s := setSuccess empty_string (setError [] (setLoadingTestCases true s)) in
    Await (CallGetTestCasesByFile (selectedFile s))
      (fun o =>
         Done
           (setLoadingTestCases false
              (try_catch
                 (data <- o ;;
                  requirements <- get (lit "requirements") data ;;
                  Returned
                    (match requirements with
                     | Some v =>
                         if has_entries requirements
                         then setGroupedTestCases v s
                         else setGroupedTestCases (JArr []) s
                     | None => setGroupedTestCases (JArr []) s
                     end))
                 (fun _ => setError (lit "Failed to fetch test cases") s)))).

(** [fetchRequirements] *)
Definition fetchRequirements (s : state) : proc state :=
  let s := setLoadingTestCases true s in
  Await (CallGetRequirements (selectedFile s))
    (fun o =>
       Done
         (setLoadingTestCases false
            (match o with
             | Returned data => setRequirements (as_requirements data) s
             | Thrown _ => setError (lit "Failed to fetch requirements") s
             end))).

(** [handleGenerationOptionChange] *)
Definition handleGenerationOptionChange (option : GenerationOption)
  (s : state) : proc state :=
  let s :=
    setGroupedTestCases (JArr [])
      (setError [] (setSuccess empty_string (setGenerationOption option s))) in
  match option with
  | OptionRequirements => fetchRequirements s
  | OptionFile => Done s
  end.

End FileSelection.

(** No loading flag is set. *)
Definition nothing_loading (s : state) : Prop :=
  loadingTestCases s = false
  /\ loadingGenerate s = false
  /\ loadingImprove s = false.

(** A response with grouped requirements, and one with none. *)
Definition grouped_body : json :=
  JObj [(lit "requirements",
         JArr [JObj [(lit "req_title_id", JStr (lit "R1"));
                     (lit "test_cases", JArr [])]])].

Definition grouped_network : network :=
  fun _ _ => Responded (Response 200 (lit "OK") (inr grouped_body)).

Definition example_to_number (s : str) : float := 0%float.

Definition example_as_requirements (data : json) : list Requirement.t := [].

(** A network on which the generation calls are accepted and the fetch of
    the grouped test cases fails. *)
Definition refetch_failing_network : network :=
  fun issued c =>
    match c with
    | CallGetTestCasesByFile _ => failing_network issued c
    | _ => accepting_network issued c
    end.

(** The sentences that the generation handlers report. *)
Definition select_one_message : str :=
  lit "Please select at least one requirement.".
Definition file_failed_message : str :=
  lit "Failed to generate test cases for file.".
Definition requirements_failed_message : str :=
  lit "Failed to generate test cases for selected requirements.".

(** The [disabled] attribute of the submit button of the improve modal:
    [loadingImprove || !improveInput] *)
Definition submit_disabled (s : state) : bool :=
  loadingImprove s || str_eqb (improveInput s) [].

(** What a session of the improve modal reads of the state it starts from. *)
Definition same_session_state (s1 s2 : state) : Prop :=
  selectedFile s1 = selectedFile s2
  /\ improveModalData s1 = improveModalData s2
  /\ improveInput s1 = improveInput s2
  /\ improvedDescription s1 = improvedDescription s2.

(** A network that rejects every request before any response. *)
Definition offline_network : network :=
  fun _ _ => Rejected (lit "Failed to fetch").

(** A push refused with a [detail]. *)
Definition refused_push_network : network :=
  fun _ _ =>
    Responded
      (Response 400 (lit "Bad Request")
         (inr (JObj [(lit "detail", JStr (lit "Jira project not found"))]))).

(** ** The reports screen: the export and the views *)

Definition double_quote : char := 34%N.

(** The heading line of the export, without its line break. *)
Definition csv_heading : str :=
  lit "TC ID,Title,Risk,Compliance,Requirement,Description,Expected Result,Input Data".

(** One entry of [rows] in [handleExportCSV] *)
Definition csv_row (tc : ReportTestCase.t) : list str :=
  [ReportTestCase.tc_id tc;
   ReportTestCase.tc_title tc;
   ReportTestCase.risk tc;
   join (lit ", ") (ReportTestCase.compliance_tags tc);
   ReportTestCase.req_title tc;
   ReportTestCase.tc_description tc;
   ReportTestCase.expected_result tc;
   ReportTestCase.input_data tc].

(** [r.map(x => `"${x}"`).join(',')] *)
Definition csv_line (r : list str) : str :=
  join [comma] (List.map (fun x => [double_quote] ++ x ++ [double_quote]) r).

(** The text that [handleExportCSV] builds from the test cases on display. *)
Definition csv (timeFilteredTestCases : list ReportTestCase.t) : str :=
  (csv_heading ++ [newline])
  ++ join [newline] (List.map csv_line (List.map csv_row timeFilteredTestCases)).

(** [handleExportCSV]: nothing without metrics, the text of the file
    otherwise. *)
Definition handleExportCSV (metrics : option ComplianceMetrics)
  (timeFilteredTestCases : list ReportTestCase.t) : option str :=
  match metrics with
  | None => None
  | Some _ => Some (csv timeFilteredTestCases)
  end.

Module FileOption.
Record t : Type := Make { file_id : str; filename : str }.
End FileOption.

(** The state of [ComplianceReports] that its views read. *)
Module Reports.
Record t : Type := Make {
  files : list FileOption.t;
  selectedFile : str;
  metrics : option ComplianceMetrics;
  loading : bool
}.

Definition setMetrics (x : option ComplianceMetrics) (r : t) : t :=
  Make (files r) (selectedFile r) x (loading r).

Definition setLoading (x : bool) (r : t) : t :=
  Make (files r) (selectedFile r) (metrics r) x.
End Reports.

(** The four things the reports screen renders, in the order of its tests. *)
Inductive reports_view : Type :=
| LoadingSkeleton
| NoDocumentsAvailable
| NoTestCasesGenerated
| MetricsReport.

Definition reports_view_of (r : Reports.t) : reports_view :=
  if Reports.loading r then LoadingSkeleton
  else if Nat.eqb (length (Reports.files r)) 0 then NoDocumentsAvailable
  else match Reports.metrics r with
       | None => NoTestCasesGenerated
       | Some m =>
           if N.eqb (total_test_cases m) 0 then NoTestCasesGenerated
           else MetricsReport
       end.

(** The metrics that the [catch] of the metrics effect stores. *)
Definition empty_metrics (selectedFile : str) : ComplianceMetrics :=
  Build_ComplianceMetrics selectedFile 0 [] [].

Section MetricsEffect.

(** The response of [getComplianceMetrics] taken as metrics, which the
    source does without a check; a [null] response is no metrics. *)
Variable as_metrics : json -> option ComplianceMetrics.

(** The effect on [selectedFile] and [period], from its start to the point
    where its request has settled; [net] is what the request meets. *)
Definition metricsEffect (net : fetched) (r : Reports.t) : Reports.t :=
  if str_eqb (Reports.selectedFile r) [] then Reports.setMetrics None r
  else
    let r := Reports.setLoading true r in
    match getComplianceMetrics net with
    | Returned data =>
        Reports.setLoading false (Reports.setMetrics (as_metrics data) r)
    | Thrown _ =>
        Reports.setLoading false
          (Reports.setMetrics
             (Some (empty_metrics (Reports.selectedFile r))) r)
    end.

End MetricsEffect.

(** ** The dashboard: the totals *)

(** [array.reduce(f, init)] with a callback that may throw *)
Fixpoint reduce {A B : Type} (f : B -> A -> outcome B) (array : list A)
  (init : B) : outcome B :=
  match array with
  | [] => Returned init
  | x :: array' => acc <- f init x ;; reduce f array' acc
  end.

(** [array.map(f)] with a callback that may throw *)
Fixpoint map_outcome {A B : Type} (f : A -> outcome B) (array : list A)
  : outcome (list B) :=
  match array with
  | [] => Returned []
  | x :: array' =>
      y <- f x ;; ys <- map_outcome f array' ;; Returned (y :: ys)
  end.

(** [Promise.all]: the results in order, or a rejection when one of the
    promises rejects.  [fetchData] only logs the rejection, so which one is
    kept does not matter; the first in order is. *)
Fixpoint Promise_all {A : Type} (promises : list (outcome A))
  : outcome (list A) :=
  match promises with
  | [] => Returned []
  | p :: promises' =>
      a <- p ;; rest <- Promise_all promises' ;; Returned (a :: rest)
  end.

(** [requirementsCount] *)
Definition requirementsCount (requirementsResults : list json) : nat :=
  fold_left
    (fun sum reqs =>
       sum + match reqs with
             | JArr items => length items
             | _ => 0
             end)
    requirementsResults 0.

(** [req.test_cases.filter((tc: any) => tc.tc_id).length] *)
Fixpoint count_with_id (test_cases : list json) : outcome nat :=
  match test_cases with
  | [] => Returned 0
  | tc :: rest =>
      tc_id <- get (lit "tc_id") tc ;;
      n <- count_with_id rest ;;
      Returned ((if truthy tc_id then 1 else 0) + n)
  end.

(** The callback of the inner [reduce] of [testCasesCount]. *)
Definition count_requirement (tcSum : nat) (req : json) : outcome nat :=
  test_cases <- get (lit "test_cases") req ;;
  match test_cases with
  | Some (JArr items) => n <- count_with_id items ;; Returned (tcSum + n)
  | _ => Returned tcSum
  end.

(** The callback of the outer [reduce] of [testCasesCount]; [reduce] is
    a function only on an array. *)
Definition count_file (sum : nat) (tcRes : json) : outcome nat :=
  if truthy (Some tcRes) then
    requirements <- get (lit "requirements") tcRes ;;
    if truthy requirements then
      match requirements with
      | Some (JArr reqs) =>
          n <- reduce count_requirement reqs 0 ;; Returned (sum + n)
      | _ => Thrown (Error (lit "tcRes.requirements.reduce is not a function"))
      end
    else Returned sum
  else Returned sum.

(** [testCasesCount] *)
Definition testCasesCount (testCasesResults : list json) : outcome nat :=
  reduce count_file testCasesResults 0.

Module Activity.
Record t : Type := Make {
  action : value;
  project : value;
  time : value;
  status : value
}.
End Activity.

(** One entry of [activities] *)
Definition activity_of (file : json) : outcome Activity.t :=
  filename <- get (lit "filename") file ;;
  project <- get (lit "status") file ;;
  uploaded_at <- get (lit "uploaded_at") file ;;
  status <- get (lit "status") file ;;
  Returned
    (Activity.Make filename
       (or_else project (Some (JStr [])))
       (or_else uploaded_at (Some (JStr [])))
       (or_else status (Some (JStr (lit "info"))))).

(** The state of [Dashboard]. *)
Record dashboard : Type := DashboardState {
  totalFiles : str;
  totalRequirements : str;
  totalTestCases : str;
  recentActivities : list Activity.t
}.

Definition setTotalFiles (x : str) (d : dashboard) : dashboard :=
  DashboardState x (totalRequirements d) (totalTestCases d) (recentActivities d).

Definition setTotalRequirements (x : str) (d : dashboard) : dashboard :=
  DashboardState (totalFiles d) x (totalTestCases d) (recentActivities d).

Definition setTotalTestCases (x : str) (d : dashboard) : dashboard :=
  DashboardState (totalFiles d) (totalRequirements d) x (recentActivities d).

Definition setRecentActivities (x : list Activity.t) (d : dashboard)
  : dashboard :=
  DashboardState (totalFiles d) (totalRequirements d) (totalTestCases d) x.

Section DashboardData.

(** [n.toLocaleString()] for a count, which depends on the locale of the
    engine. *)
Variable toLocaleString : nat -> str.

(** [fetchData], for a list of files that is an array: [files] is what
    [getUploadedFiles] settled with, [requirementsResult i] and
    [testCasesResult i] what the two requests for the file at index [i]
    settled with.  Building the requests reads [file.file_id] of every
    file, which throws on a [null] entry.  A state set before a throw stays
    set. *)
Definition fetchData (files : outcome (list json))
  (requirementsResult testCasesResult : nat -> outcome json)
  (d : dashboard) : dashboard :=
  match files with
  | Thrown _ => d
  | Returned files =>
      let d := setTotalFiles (toLocaleString (length files)) d in
      try_catch
        (ids <- map_outcome (get (lit "file_id")) files ;;
         requirementsResults <-
           Promise_all (List.map requirementsResult (seq 0 (length files))) ;;
         testCasesResults <-
           Promise_all (List.map testCasesResult (seq 0 (length files))) ;;
         let requirementsCount := requirementsCount requirementsResults in
         testCasesCount <- testCasesCount testCasesResults ;;
         let d :=
           setTotalTestCases (toLocaleString testCasesCount)
             (setTotalRequirements (toLocaleString requirementsCount) d) in
         Returned
           (try_catch
              (activities <- map_outcome activity_of files ;;
               Returned (setRecentActivities activities d))
              (fun _ => d)))
        (fun _ => d)
  end.

End DashboardData.

(** Example data of the reports screen and of the dashboard. *)
Definition example_export : list ReportTestCase.t :=
  [ReportTestCase.Make (lit "TC-1") (lit "Login") (lit "High")
     [lit "FDA"; lit "ISO"] (lit "REQ-1") (lit "Check the login")
     (lit "Logged in") (lit "null") [];
   ReportTestCase.Make (lit "TC-2") (lit "Logout") (lit "Low")
     [lit "FDA"] (lit "REQ-1") (lit "Check the logout")
     (lit "Logged out") (lit "null") []].

Definition example_reports : Reports.t :=
  Reports.Make [FileOption.Make (lit "file-1") (lit "srs.pdf")]
    (lit "file-1") None false.

Definition example_as_metrics (v : json) : option ComplianceMetrics :=
  match v with
  | JNull => None
  | _ => Some (empty_metrics [])
  end.

Definition example_dashboard : dashboard :=
  DashboardState (lit "0") (lit "0") (lit "0") [].

Definition example_toLocaleString (n : nat) : str :=
  match n with
  | 0 => lit "0"
  | 1 => lit "1"
  | 2 => lit "2"
  | _ => lit "many"
  end.

(** * Properties *)

(** ** Strings *)

Lemma str_eqb_eq (a b : str) : str_eqb a b = true <-> a = b.
Proof.
  revert b; induction a as [|x a IH]; intros [|y b]; simpl; try easy.
  rewrite andb_true_iff, N.eqb_eq, IH.
  split; [intros [-> ->]; reflexivity | intros H; inversion H; auto].
Qed.

Lemma str_eqb_refl (a : str) : str_eqb a a = true.
Proof. apply str_eqb_eq; reflexivity. Qed.

Lemma str_eqb_nil (a : str) : str_eqb a [] = true <-> a = [].
Proof. apply str_eqb_eq. Qed.

Lemma trimStart_nil (s : str) :
  trimStart s = [] <-> forallb is_white_space s = true.
Proof.
  induction s as [|c s IH]; simpl; [tauto|].
  destruct (is_white_space c); simpl; [exact IH | split; discriminate].
Qed.

Lemma trimStart_blank (s : str) :
  forallb is_white_space (trimStart s) = forallb is_white_space s.
Proof.
  induction s as [|c s IH]; simpl; [reflexivity|].
  destruct (is_white_space c) eqn:Hc; simpl; [exact IH | now rewrite Hc].
Qed.

Lemma forallb_rev {A : Type} (p : A -> bool) (l : list A) :
  forallb p (rev l) = forallb p l.
Proof.
  induction l as [|x l IH]; simpl; [reflexivity|].
  rewrite forallb_app, IH; simpl.
  now rewrite andb_true_r, andb_comm.
Qed.

(** [line.trim()] is the empty string exactly for a blank line. *)
Lemma trim_nil (s : str) : trim s = [] <-> blank s = true.
Proof.
  unfold trim, trimEnd, blank.
  rewrite <- (trimStart_blank s), <- (forallb_rev _ (trimStart s)).
  rewrite <- trimStart_nil.
  split; intros H.
  - apply (f_equal (@rev char)) in H; rewrite rev_involutive in H; exact H.
  - now rewrite H.
Qed.

(** The pieces of [split] joined by the separator give the string back, and
    no piece holds the separator. *)
Lemma split_not_nil (sep : char) (s : str) : split sep s <> [].
Proof.
  destruct s as [|c s]; simpl; [discriminate|].
  destruct (N.eqb c sep); [discriminate|].
  destruct (split sep s); discriminate.
Qed.

Lemma join_split (sep : char) (s : str) : join [sep] (split sep s) = s.
Proof.
  induction s as [|c s IH]; simpl; [reflexivity|].
  destruct (N.eqb c sep) eqn:Hc.
  - apply N.eqb_eq in Hc; subst c.
    pose proof (split_not_nil sep s) as Hne.
    destruct (split sep s) as [|piece pieces]; [congruence|].
    simpl in *. now rewrite IH.
  - pose proof (split_not_nil sep s) as Hne.
    destruct (split sep s) as [|piece pieces]; [congruence|].
    destruct pieces; simpl in *; now rewrite <- IH.
Qed.

Lemma split_pieces (sep : char) (s : str) :
  Forall (fun piece => ~ In sep piece) (split sep s).
Proof.
  induction s as [|c s IH]; simpl.
  - constructor; [intros []|constructor].
  - destruct (N.eqb c sep) eqn:Hc.
    + constructor; [intros []|exact IH].
    + destruct (split sep s) as [|piece pieces].
      * constructor; [|constructor].
        intros [H|[]]; subst; now rewrite N.eqb_refl in Hc.
      * inversion IH; subst. constructor; [|assumption].
        intros [H|H]; [subst; now rewrite N.eqb_refl in Hc | contradiction].
Qed.

(** ** The matcher *)

Lemma plus_greedy_stops {A : Type} (p : char -> bool) (k : str -> option A)
  (tail : str) :
  match tail with [] => True | c :: _ => p c = false end ->
  plus_greedy p k tail = None.
Proof. destruct tail as [|c tail]; simpl; [easy | now intros ->]. Qed.

(** The greedy [+] takes the whole run when the continuation accepts what
    follows it. *)
Lemma plus_greedy_run {A : Type} (p : char -> bool) (k : str -> option A)
  (run tail : str) (r : A) :
  run <> [] ->
  forallb p run = true ->
  match tail with [] => True | c :: _ => p c = false end ->
  k tail = Some r ->
  plus_greedy p k (run ++ tail) = Some r.
Proof.
  intros Hne Hrun Htail Hk.
  induction run as [|c run IH]; [congruence|].
  simpl in Hrun; apply andb_true_iff in Hrun as [Hc Hrun].
  simpl; rewrite Hc.
  destruct run as [|c' run].
  - simpl. now rewrite (plus_greedy_stops p k tail Htail).
  - now rewrite IH.
Qed.

Lemma plus_greedy_shorter {A : Type} (p : char -> bool) (k : str -> option A)
  (s : str) (r : A) :
  plus_greedy p k s = Some r ->
  exists s', length s' < length s /\ k s' = Some r.
Proof.
  induction s as [|c s IH]; simpl; [discriminate|].
  destruct (p c); [|discriminate].
  destruct (plus_greedy p k s) as [r'|] eqn:Hrec.
  - intros H; injection H as ->.
    destruct (IH eq_refl) as (s' & Hlen & Hk). exists s'; split; [lia|exact Hk].
  - intros Hk. exists s; split; [lia|exact Hk].
Qed.

(** A match never moves backwards, and keeps a capture once it is set. *)
Lemma matcher_progress (r : regex) :
  forall k st res,
    matcher r k st = Some res ->
    exists st',
      length (rest st') <= length (rest st)
      /\ (capture st <> None -> capture st' <> None)
      /\ k st' = Some res.
Proof.
  induction r as [p|r1 IH1 r2 IH2|r1 IH1 r2 IH2|p|r1 IH1|r1 IH1|];
    intros k st res; simpl.
  - destruct st as [[|c s] cap]; simpl; [discriminate|].
    destruct (p c); [|discriminate].
    intros Hk. exists (MState s cap); simpl; repeat split; auto.
  - intros H. apply IH1 in H as (st1 & Hlen1 & Hcap1 & H).
    apply IH2 in H as (st2 & Hlen2 & Hcap2 & H).
    exists st2; repeat split; [lia|auto|exact H].
  - destruct (matcher r1 k st) as [res'|] eqn:H1.
    + intros H; injection H as ->. now apply IH1.
    + now apply IH2.
  - intros H. apply plus_greedy_shorter in H as (s' & Hlen & H).
    exists (MState s' (capture st)); simpl; repeat split; [lia|auto|exact H].
  - intros H. apply IH1 in H as (st1 & Hlen1 & _ & H).
    eexists; split; [|split; [|exact H]]; simpl; [exact Hlen1|discriminate].
  - destruct (matcher r1 (fun st' => Some st') st) as [st1|] eqn:H1;
      [|discriminate].
    apply IH1 in H1 as (st2 & _ & Hcap & Heq). injection Heq as ->.
    intros H. exists (MState (rest st) (capture st1)); simpl.
    repeat split; [lia|exact Hcap|exact H].
  - destruct st as [[|c s] cap]; simpl; [|discriminate].
    intros H. exists (MState [] cap); simpl; repeat split; auto.
Qed.

Lemma matcher_Seq (r1 r2 : regex) (k : mstate -> option mstate) (st : mstate) :
  matcher (Seq r1 r2) k st = matcher r1 (matcher r2 k) st.
Proof. reflexivity. Qed.

Lemma matcher_Plus (p : char -> bool) (k : mstate -> option mstate)
  (st : mstate) :
  matcher (Plus p) k st =
  plus_greedy p (fun s' => k (MState s' (capture st))) (rest st).
Proof. reflexivity. Qed.

Lemma matcher_Group (r : regex) (k : mstate -> option mstate) (st : mstate) :
  matcher (Group r) k st =
  matcher r
    (fun st' =>
       k (MState (rest st')
            (Some (firstn (length (rest st) - length (rest st')) (rest st)))))
    st.
Proof. reflexivity. Qed.

(** A match of the description regex consumes text and sets its capture. *)
Lemma match_here_numbered_step (s : str) (st : mstate) :
  match_here numbered_step s = Some st ->
  length (rest st) < length s /\ capture st <> None.
Proof.
  unfold match_here, numbered_step. intros H.
  rewrite matcher_Seq, matcher_Plus in H.
  apply plus_greedy_shorter in H as (s1 & Hlen1 & H).
  rewrite matcher_Seq in H.
  apply matcher_progress in H as (st2 & Hlen2 & _ & H).
  rewrite matcher_Seq in H.
  apply matcher_progress in H as (st3 & Hlen3 & _ & H).
  rewrite matcher_Seq, matcher_Group in H.
  apply matcher_progress in H as (st4 & Hlen4 & _ & H).
  apply matcher_progress in H as (st5 & Hlen5 & Hcap5 & H).
  injection H as <-. simpl in *. split; [lia|].
  apply Hcap5; discriminate.
Qed.

Lemma exec_unfold (r : regex) (s : str) :
  exec r s =
  match match_here r s with
  | Some st => Some st
  | None => match s with [] => None | _ :: s' => exec r s' end
  end.
Proof. destruct s; reflexivity. Qed.

Lemma exec_here (r : regex) (s : str) (st : mstate) :
  match_here r s = Some st -> exec r s = Some st.
Proof. intros H. now rewrite exec_unfold, H. Qed.

Lemma exec_numbered_step (s : str) (st : mstate) :
  exec numbered_step s = Some st ->
  length (rest st) < length s /\ capture st <> None.
Proof.
  induction s as [|c s IH]; rewrite exec_unfold;
    destruct (match_here numbered_step _) as [st'|] eqn:H; try discriminate.
  - intros Heq; injection Heq as ->. now apply match_here_numbered_step in H.
  - intros Hrec. apply IH in Hrec as [Hlen Hcap].
    split; [simpl; lia|exact Hcap].
Qed.

(** The loop never runs out of rounds: any supply above the length of the
    text gives the same steps. *)
Lemma collect_steps_fuel (fuel1 fuel2 : nat) (s : str) :
  length s < fuel1 -> length s < fuel2 ->
  collect_steps fuel1 s = collect_steps fuel2 s.
Proof.
  revert fuel2 s; induction fuel1 as [|fuel1 IH]; intros fuel2 s H1 H2; [lia|].
  destruct fuel2 as [|fuel2]; [lia|]. simpl.
  destruct (exec numbered_step s) as [st|] eqn:Hexec; [|reflexivity].
  apply exec_numbered_step in Hexec as [Hlen _].
  rewrite (IH fuel2 (rest st)) by lia. reflexivity.
Qed.

Lemma numbered_steps_unfold (desc : str) :
  numbered_steps desc =
  match exec numbered_step desc with
  | Some st =>
      match capture st with
      | Some text => trim text :: numbered_steps (rest st)
      | None => numbered_steps (rest st)
      end
  | None => []
  end.
Proof.
  unfold numbered_steps; simpl.
  destruct (exec numbered_step desc) as [st|] eqn:Hexec; [|reflexivity].
  apply exec_numbered_step in Hexec as [Hlen _].
  rewrite (collect_steps_fuel (length desc) (S (length (rest st))) (rest st))
    by lia.
  reflexivity.
Qed.

(** ** Numbered descriptions *)

Lemma trimStart_app (s t : str) :
  trimStart (s ++ t) = if blank s then trimStart t else trimStart s ++ t.
Proof.
  unfold blank. induction s as [|c s IH]; simpl; [reflexivity|].
  destruct (is_white_space c); simpl; [exact IH|reflexivity].
Qed.

(** A white space after the content does not show in the trimmed step. *)
Lemma trim_app_space (s : str) : trim (s ++ [space]) = trim s.
Proof.
  destruct (blank s) eqn:Hs.
  - assert (Hb : blank (s ++ [space]) = true).
    { unfold blank in *. now rewrite forallb_app, Hs. }
    apply trim_nil in Hs, Hb. congruence.
  - unfold trim, trimEnd. rewrite trimStart_app, Hs.
    rewrite rev_app_distr. reflexivity.
Qed.

Lemma matcher_Class_hit (p : char -> bool) (k : mstate -> option mstate)
  (c : char) (s : str) (cap : option str) :
  p c = true ->
  matcher (Class p) k (MState (c :: s) cap) = k (MState s cap).
Proof. intros H; simpl; now rewrite H. Qed.

Lemma matcher_Ahead (r : regex) (k : mstate -> option mstate) (st : mstate) :
  matcher (Ahead r) k st =
  match matcher r (fun st' => Some st') st with
  | Some st' => k (MState (rest st) (capture st'))
  | None => None
  end.
Proof. reflexivity. Qed.

Lemma firstn_captured (cap tail : str) :
  firstn (length (cap ++ tail) - length tail) (cap ++ tail) = cap.
Proof.
  rewrite length_app, Nat.add_sub.
  rewrite firstn_app, Nat.sub_diag, firstn_all. simpl. apply app_nil_r.
Qed.

(** What may follow a step for the lookahead to accept it: the end of the
    text, or a number and a full stop. *)
Lemma lookahead_accepts (tail : str) (cap : option str) :
  tail = []
  \/ (exists n more, is_number n /\ tail = n ++ full_stop :: more) ->
  exists st',
    matcher (Alt (Seq (Plus is_digit) (Class (N.eqb full_stop))) EndOfInput)
      (fun st' => Some st') (MState tail cap) = Some st'
    /\ capture st' = cap.
Proof.
  intros [->|(n & more & [Hne Hdigits] & ->)].
  - exists (MState [] cap). split; reflexivity.
  - exists (MState more cap). split; [|reflexivity].
    cbn [matcher rest capture].
    erewrite (plus_greedy_run is_digit _ n (full_stop :: more));
      [reflexivity|exact Hne|exact Hdigits|reflexivity|].
    simpl. reflexivity.
Qed.

(** One step of a numbered description, matched where it starts. *)
Lemma match_here_segment (n cap tail : str) :
  is_number n ->
  plain_content cap ->
  tail = []
  \/ (exists n' more, is_number n' /\ tail = n' ++ full_stop :: more) ->
  match_here numbered_step (n ++ [full_stop; space] ++ cap ++ tail)
  = Some (MState tail (Some cap)).
Proof.
  intros [Hn Hdigits] [Hcap Hplain] Htail.
  unfold match_here, numbered_step.
  rewrite matcher_Seq, matcher_Plus. cbn [rest capture].
  apply plus_greedy_run; [exact Hn|exact Hdigits|reflexivity|].
  cbn [app].
  rewrite matcher_Seq, matcher_Class_hit by reflexivity.
  rewrite matcher_Seq, matcher_Class_hit by reflexivity.
  rewrite matcher_Seq, matcher_Group, matcher_Plus. cbn [rest capture].
  apply plus_greedy_run; [exact Hcap|exact Hplain| |].
  - destruct Htail as [->|(n' & more & [Hn' Hd'] & ->)]; [exact I|].
    destruct n' as [|d n']; [congruence|].
    simpl in Hd' |- *. apply andb_true_iff in Hd' as [-> _]. reflexivity.
  - rewrite firstn_captured, matcher_Ahead.
    destruct (lookahead_accepts tail (Some cap) Htail) as (st' & -> & ->).
    reflexivity.
Qed.

Lemma numbered_cons (sg sg' : segment) (segs : list segment) :
  numbered (sg :: sg' :: segs) =
  number sg ++ [full_stop; space] ++ (content sg ++ [space])
  ++ numbered (sg' :: segs).
Proof.
  cbn [numbered]. unfold segment_text.
  now rewrite <- !app_assoc.
Qed.

Lemma numbered_starts (sg : segment) (segs : list segment) :
  exists more, numbered (sg :: segs) = number sg ++ full_stop :: more.
Proof.
  destruct segs as [|sg' segs].
  - now exists (space :: content sg).
  - rewrite numbered_cons. now eexists.
Qed.

Lemma plain_content_space (s : str) :
  plain_content s -> plain_content (s ++ [space]).
Proof.
  intros [Hne Hplain]. split.
  - destruct s; [congruence|discriminate].
  - now rewrite forallb_app, Hplain.
Qed.

(** The loop of [formatDescriptionSmart] on a numbered description: one step
    per segment, in the order of the text. *)
Lemma numbered_steps_numbered (segs : list segment) :
  Forall plain_segment segs ->
  numbered_steps (numbered segs) =
  List.map (fun sg => trim (content sg)) segs.
Proof.
  induction segs as [|sg segs IH]; intros Hplain; [reflexivity|].
  inversion Hplain as [|? ? [Hnum Hcontent] Hrest]; subst.
  rewrite numbered_steps_unfold.
  destruct segs as [|sg' segs].
  - cbn [numbered]. unfold segment_text.
    rewrite <- (app_nil_r (content sg)) at 1.
    pose proof (match_here_segment _ _ [] Hnum Hcontent (or_introl eq_refl))
      as Hm.
    apply exec_here in Hm. rewrite Hm.
    reflexivity.
  - rewrite numbered_cons.
    assert (Htail :
      numbered (sg' :: segs) = []
      \/ (exists n' more,
            is_number n' /\ numbered (sg' :: segs) = n' ++ full_stop :: more)).
    { right. destruct (numbered_starts sg' segs) as (more & Heq).
      exists (number sg'), more. split; [|exact Heq].
      inversion Hrest as [|? ? [Hnum' _] _]; exact Hnum'. }
    pose proof (match_here_segment _ _ _ Hnum
                  (plain_content_space _ Hcontent) Htail)
      as Hm.
    apply exec_here in Hm. rewrite Hm.
    cbn [capture rest map]. now rewrite trim_app_space, IH.
Qed.

(** Numbered steps without digits.  For a description ["1. a 2. b 3. c"]
    whose contents are not empty and hold no digit, [formatDescriptionSmart]
    returns the ordered list of the contents, each trimmed, in the order of
    the text; the numbers play no part. *)
Theorem formatDescriptionSmart_numbered (segs : list segment) :
  segs <> [] ->
  Forall plain_segment segs ->
  formatDescriptionSmart (numbered segs) =
  OrderedList (List.map (fun sg => trim (content sg)) segs).
Proof.
  intros Hne Hplain. unfold formatDescriptionSmart.
  rewrite (numbered_steps_numbered segs Hplain).
  destruct segs; [congruence|reflexivity].
Qed.

Lemma plain_segment_lit (n c : str) :
  n <> [] -> forallb is_digit n = true ->
  c <> [] -> forallb (fun x => negb (is_digit x)) c = true ->
  plain_segment (Segment n c).
Proof. intros; repeat split; assumption. Qed.

(** The description ["1. a 2. b 3. c"] gives the list [a, b, c]. *)
Lemma formatDescriptionSmart_numbered_witness :
  numbered [Segment (lit "1") (lit "a"); Segment (lit "2") (lit "b");
            Segment (lit "3") (lit "c")] = lit "1. a 2. b 3. c"
  /\ formatDescriptionSmart
       (numbered [Segment (lit "1") (lit "a"); Segment (lit "2") (lit "b");
                  Segment (lit "3") (lit "c")])
     = OrderedList [lit "a"; lit "b"; lit "c"].
Proof.
  split; [reflexivity|].
  apply (formatDescriptionSmart_numbered
           [Segment (lit "1") (lit "a"); Segment (lit "2") (lit "b");
            Segment (lit "3") (lit "c")]).
  - discriminate.
  - repeat constructor; discriminate.
Defined.

(** The numbers are not read: ["3. foo 1. bar"] gives [foo, bar]. *)
Example formatDescriptionSmart_keeps_text_order :
  formatDescriptionSmart (lit "3. foo 1. bar")
  = OrderedList [lit "foo"; lit "bar"].
Proof. reflexivity. Qed.

(** C1.  The claim is that a description ["1. a 2. b 3. c"] gives the
    ordered list of its contents.  The description ["1. use 2 items 2. done"]
    has that form, with the contents [use 2 items] and [done], and
    [formatDescriptionSmart] returns the one item [done] for it: the step
    that holds a digit is lost, where the comments of the function say
    that it matches the numbered steps and removes their leading numbering. *)
Lemma formatDescriptionSmart_digit_in_content :
  let segs := [Segment (lit "1") (lit "use 2 items");
               Segment (lit "2") (lit "done")] in
  numbered segs = lit "1. use 2 items 2. done"
  /\ formatDescriptionSmart (numbered segs) = OrderedList [lit "done"]
  /\ formatDescriptionSmart (numbered segs)
     <> OrderedList (List.map content segs).
Proof.
  cbv zeta. split; [reflexivity|]. split; [reflexivity|].
  vm_compute. discriminate.
Qed.

(** ** The fallback of [formatDescriptionSmart] *)

Lemma formatDescription_lines (desc : str) :
  formatDescription desc =
  if Nat.ltb 1 (length (surviving_lines desc))
  then OrderedList (surviving_lines desc)
  else Paragraph desc.
Proof.
  unfold formatDescription, surviving_lines.
  rewrite (filter_ext (fun line => negb (str_eqb (trim line) []))
             (fun line => negb (blank line))); [reflexivity|].
  intros line. f_equal.
  destruct (blank line) eqn:Hb.
  - apply str_eqb_nil, trim_nil, Hb.
  - destruct (str_eqb (trim line) []) eqn:Ht; [|reflexivity].
    apply str_eqb_nil, trim_nil in Ht. congruence.
Qed.

(** C2.  When the regex finds no numbered step, [formatDescriptionSmart]
    splits the description on newlines and drops the blank lines: more than
    one line left gives one list item per line, otherwise the description is
    a single paragraph. *)
Theorem formatDescriptionSmart_fallback (desc : str) :
  exec numbered_step desc = None ->
  formatDescriptionSmart desc =
  if Nat.ltb 1 (length (surviving_lines desc))
  then OrderedList (surviving_lines desc)
  else Paragraph desc.
Proof.
  intros Hnone. unfold formatDescriptionSmart.
  rewrite numbered_steps_unfold, Hnone. cbn [length Nat.ltb Nat.leb].
  apply formatDescription_lines.
Qed.

Lemma formatDescriptionSmart_fallback_witness :
  let desc :=
    lit "Open the page" ++ [newline] ++ lit "   " ++ [newline]
    ++ lit "Press save" in
  exec numbered_step desc = None
  /\ formatDescriptionSmart desc
     = OrderedList [lit "Open the page"; lit "Press save"].
Proof.
  cbv zeta. split; [reflexivity|].
  exact (formatDescriptionSmart_fallback
           (lit "Open the page" ++ [newline] ++ lit "   " ++ [newline]
            ++ lit "Press save") eq_refl).
Defined.

(** One line left, or none: a paragraph with the description as it is. *)
Example formatDescriptionSmart_single_line :
  formatDescriptionSmart (lit "Open the page") = Paragraph (lit "Open the page")
  /\ formatDescriptionSmart (lit "  ") = Paragraph (lit "  ").
Proof. split; reflexivity. Qed.

(** ** The order on strings *)

Lemma str_ltb_irrefl (a : str) : str_ltb a a = false.
Proof.
  induction a as [|x a IH]; simpl; [reflexivity|].
  now rewrite N.ltb_irrefl.
Qed.

Lemma str_ltb_asym (a b : str) : str_ltb a b = true -> str_ltb b a = false.
Proof.
  revert b; induction a as [|x a IH]; intros [|y b]; simpl; try easy.
  destruct (N.ltb_spec x y), (N.ltb_spec y x); try easy; try lia; apply IH.
Qed.

(** Of two strings, one below the other: a third string is above the first
    or below the second. *)
Lemma str_ltb_between (a b c : str) :
  str_ltb a c = true -> str_ltb a b = true \/ str_ltb b c = true.
Proof.
  revert b c; induction a as [|x a IH]; intros [|y b] [|z c]; simpl;
    try (now auto).
  destruct (N.ltb_spec x z), (N.ltb_spec z x), (N.ltb_spec x y),
    (N.ltb_spec y x), (N.ltb_spec y z), (N.ltb_spec z y);
    try (now auto); try lia; apply IH.
Qed.

(** [<] on strings is the lexicographic order of the code units: the first
    string is a proper prefix of the second, or at the first place where they
    differ its code unit is the smaller one. *)
Lemma str_ltb_lexicographic (a b : str) :
  str_ltb a b = true <->
  (exists y b', b = a ++ y :: b')
  \/ (exists common x y a' b',
        a = common ++ x :: a' /\ b = common ++ y :: b' /\ (x < y)%N).
Proof.
  revert b; induction a as [|x a IH]; intros [|y b]; simpl.
  - split; [discriminate|].
    intros [(y & b' & H)|(common & x & y & a' & b' & H & _)];
      [discriminate|destruct common; discriminate].
  - split; [|reflexivity]. intros _. left. now exists y, b.
  - split; [discriminate|].
    intros [(y & b' & H)|(common & x' & y & a' & b' & _ & H & _)];
      [discriminate|destruct common; discriminate].
  - destruct (N.ltb_spec x y) as [Hxy|Hxy].
    + split; [|reflexivity]. intros _. right.
      now exists [], x, y, a, b.
    + destruct (N.ltb_spec y x) as [Hyx|Hyx].
      * split; [discriminate|].
        intros [(y' & b' & H)|(common & x' & y' & a' & b' & Ha & Hb & Hlt)].
        -- injection H as -> _. lia.
        -- destruct common as [|c common]; simpl in Ha, Hb.
           ++ injection Ha as -> _. injection Hb as -> _. lia.
           ++ injection Ha as -> _. injection Hb as -> _. lia.
      * assert (x = y) by lia; subst y. rewrite IH. split.
        -- intros [(y' & b' & ->)|(common & x' & y' & a' & b' & -> & -> & Hlt)].
           ++ left. now exists y', b'.
           ++ right. now exists (x :: common), x', y', a', b'.
        -- intros [(y' & b' & H)|(common & x' & y' & a' & b' & Ha & Hb & Hlt)].
           ++ injection H as ->. left. now exists y', b'.
           ++ destruct common as [|c common]; simpl in Ha, Hb.
              ** injection Ha as -> _. injection Hb as -> _. lia.
              ** injection Ha as _ ->. injection Hb as _ ->.
                 right. now exists common, x', y', a', b'.
Qed.

Lemma str_ltb_antisym (a b : str) :
  str_ltb a b = false -> str_ltb b a = false -> a = b.
Proof.
  revert b; induction a as [|x a IH]; intros [|y b]; simpl; try easy.
  destruct (N.ltb_spec x y), (N.ltb_spec y x); try easy.
  intros Hab Hba. assert (x = y) by lia. subst. f_equal. now apply IH.
Qed.

Lemma compare_keys_gt (a b : str) :
  Z.ltb 0 (compare_keys a b) = str_ltb b a.
Proof.
  unfold compare_keys.
  destruct (str_ltb a b) eqn:Hab.
  - now rewrite (str_ltb_asym a b Hab).
  - destruct (str_ltb b a); reflexivity.
Qed.

(** ** Sorting by a key *)

Section SortByKey.
Context {A : Type} (key : A -> str).

Local Abbreviation by_key := (fun a b : A => compare_keys (key a) (key b)).

Lemma insert_sorted_perm (x : A) (l : list A) :
  Permutation (x :: l) (insert_sorted by_key x l).
Proof.
  induction l as [|y l IH]; simpl; [reflexivity|].
  destruct (Z.ltb 0 (by_key x y)); [|reflexivity].
  rewrite perm_swap. now constructor.
Qed.

Lemma sort_perm (l : list A) : Permutation l (sort by_key l).
Proof.
  induction l as [|x l IH]; simpl; [constructor|].
  rewrite <- insert_sorted_perm. now constructor.
Qed.

Lemma insert_sorted_ordered (x : A) (l : list A) :
  ordered_by key l -> ordered_by key (insert_sorted by_key x l).
Proof.
  unfold ordered_by. induction l as [|y l IH]; intros Hl; simpl.
  - repeat constructor.
  - inversion Hl as [|? ? Hl' Hy]; subst.
    rewrite compare_keys_gt.
    destruct (str_ltb (key y) (key x)) eqn:Hyx.
    + constructor; [now apply IH|].
      apply (Permutation_Forall (insert_sorted_perm x l)).
      constructor; [now apply str_ltb_asym|exact Hy].
    + constructor; [exact Hl|].
      constructor; [exact Hyx|].
      eapply Forall_impl; [|exact Hy]. intros z Hz. simpl in Hz.
      destruct (str_ltb (key z) (key x)) eqn:Hzx; [|reflexivity].
      destruct (str_ltb_between (key z) (key y) (key x) Hzx); congruence.
Qed.

Lemma sort_ordered (l : list A) : ordered_by key (sort by_key l).
Proof.
  induction l as [|x l IH]; simpl; [constructor|].
  now apply insert_sorted_ordered.
Qed.

Lemma insert_sorted_stable (k : str) (x : A) (l : list A) :
  filter (fun a => str_eqb (key a) k) (insert_sorted by_key x l)
  = filter (fun a => str_eqb (key a) k) (x :: l).
Proof.
  induction l as [|y l IH]; [reflexivity|].
  cbn [insert_sorted]. rewrite compare_keys_gt.
  destruct (str_ltb (key y) (key x)) eqn:Hyx; [|reflexivity].
  cbn [filter] in *. rewrite IH.
  destruct (str_eqb (key x) k) eqn:Hx, (str_eqb (key y) k) eqn:Hy;
    try reflexivity.
  apply str_eqb_eq in Hx, Hy. rewrite Hx, Hy, str_ltb_irrefl in Hyx.
  discriminate.
Qed.

Lemma sort_stable (k : str) (l : list A) :
  filter (fun a => str_eqb (key a) k) (sort by_key l)
  = filter (fun a => str_eqb (key a) k) l.
Proof.
  induction l as [|x l IH]; [reflexivity|].
  cbn [sort]. rewrite insert_sorted_stable. cbn [filter]. now rewrite IH.
Qed.

Lemma sort_stable_arrangement (l : list A) :
  stable_arrangement key l (sort by_key l).
Proof.
  repeat split; [apply sort_perm|apply sort_ordered|].
  intros k; apply sort_stable.
Qed.

(** Two stable arrangements of one list are the same list: the result of a
    stable sort does not depend on how the engine sorts. *)
Lemma ordered_filters_eq (l1 : list A) :
  forall l2,
    ordered_by key l1 -> ordered_by key l2 ->
    (forall k,
       filter (fun a => str_eqb (key a) k) l1
       = filter (fun a => str_eqb (key a) k) l2) ->
    l1 = l2.
Proof.
  induction l1 as [|x l1 IH]; intros [|y l2] H1 H2 Hf.
  - reflexivity.
  - specialize (Hf (key y)). simpl in Hf. rewrite str_eqb_refl in Hf.
    discriminate.
  - specialize (Hf (key x)). simpl in Hf. rewrite str_eqb_refl in Hf.
    discriminate.
  - inversion H1 as [|? ? H1' Hx]; inversion H2 as [|? ? H2' Hy]; subst.
    assert (Hkey : key y = key x).
    { destruct (str_eqb (key y) (key x)) eqn:Hyx; [now apply str_eqb_eq|].
      assert (Hxy : str_eqb (key x) (key y) = false).
      { destruct (str_eqb (key x) (key y)) eqn:Hxy; [|reflexivity].
        apply str_eqb_eq in Hxy. rewrite Hxy, str_eqb_refl in Hyx.
        discriminate. }
      pose proof (Hf (key x)) as Hfx. pose proof (Hf (key y)) as Hfy.
      cbn [filter] in Hfx, Hfy.
      rewrite str_eqb_refl, Hyx in Hfx. rewrite str_eqb_refl, Hxy in Hfy.
      assert (Hinx : In x l2).
      { assert (Hin : In x (filter (fun a => str_eqb (key a) (key x)) l2))
          by (rewrite <- Hfx; now left).
        now apply filter_In in Hin. }
      assert (Hiny : In y l1).
      { assert (Hin : In y (filter (fun a => str_eqb (key a) (key y)) l1))
          by (rewrite Hfy; now left).
        now apply filter_In in Hin. }
      rewrite Forall_forall in Hx, Hy.
      apply str_ltb_antisym; [apply (Hx y Hiny)|apply (Hy x Hinx)]. }
    assert (Hhead : x = y /\ forall k,
              filter (fun a => str_eqb (key a) k) l1
              = filter (fun a => str_eqb (key a) k) l2).
    { split.
      - specialize (Hf (key x)). simpl in Hf.
        rewrite Hkey, str_eqb_refl in Hf. now injection Hf.
      - intros k. specialize (Hf k). simpl in Hf. rewrite Hkey in Hf.
        destruct (str_eqb (key x) k); [now injection Hf|exact Hf]. }
    destruct Hhead as [-> Htail]. f_equal. now apply IH.
Qed.

Lemma stable_arrangement_unique (l l1 l2 : list A) :
  stable_arrangement key l l1 -> stable_arrangement key l l2 -> l1 = l2.
Proof.
  intros (_ & H1 & Hf1) (_ & H2 & Hf2).
  apply ordered_filters_eq; [exact H1|exact H2|].
  intros k. now rewrite Hf1, Hf2.
Qed.

End SortByKey.

(** ** Display ordering *)

(** C4.  [sortedTestCases] arranges the requirements in ascending order of
    [req_title_id] and, inside each requirement, the test cases in ascending
    order of [tc_id]; both orders are the lexicographic order of strings
    ([str_ltb_lexicographic]) and both arrangements are stable. *)
Theorem sortedTestCases_ordering (groupedTestCases : list GroupedRequirement.t) :
  exists arranged,
    stable_arrangement GroupedRequirement.req_title_id groupedTestCases arranged
    /\ Forall2 displayed_as arranged (sortedTestCases groupedTestCases).
Proof.
  eexists; split.
  - apply sort_stable_arrangement.
  - unfold sortedTestCases.
    induction (sort _ groupedTestCases) as [|req l IH]; simpl; constructor.
    + repeat split; try reflexivity; simpl; apply sort_stable_arrangement.
    + exact IH.
Qed.

(** Titles [R2, R1] come out as [R1, R2]; the ids [TC-10, TC-2] stay in this
    order, since the code unit of [1] is below that of [2]. *)
Example sortedTestCases_titles :
  List.map GroupedRequirement.req_title_id
    (sortedTestCases
       [example_requirement (lit "R2") []; example_requirement (lit "R1") []])
  = [lit "R1"; lit "R2"].
Proof. reflexivity. Qed.

Example sortedTestCases_ids :
  List.map
    (fun req => List.map TestCase.tc_id (GroupedRequirement.test_cases req))
    (sortedTestCases
       [example_requirement (lit "R1")
          [example_test_case (lit "TC-10"); example_test_case (lit "TC-2")]])
  = [[lit "TC-10"; lit "TC-2"]]
  /\ List.map
       (fun req => List.map TestCase.tc_id (GroupedRequirement.test_cases req))
       (sortedTestCases
          [example_requirement (lit "R1")
             [example_test_case (lit "TC-2"); example_test_case (lit "TC-10")]])
     = [[lit "TC-10"; lit "TC-2"]].
Proof. split; reflexivity. Qed.

(** ** Input data *)

(** C3.  [formatInputData] prints a text that parses as JSON again with an
    indentation of two spaces, and returns any other text as it is. *)
Theorem formatInputData_contract {E : Engine} (input : str) :
  (forall obj,
     JSON_parse input = Some obj ->
     formatInputData input = JSON_stringify obj 2)
  /\ (JSON_parse input = None -> formatInputData input = input).
Proof.
  unfold formatInputData. split.
  - intros obj ->. reflexivity.
  - intros ->. reflexivity.
Qed.

(** On the engine of the examples: [true] is printed back, a text that is not
    JSON comes back as it is. *)
Lemma formatInputData_contract_witness :
  formatInputData (E := example_engine) (lit "true") = lit "true"
  /\ formatInputData (E := example_engine) (lit "not json") = lit "not json".
Proof.
  split.
  - exact (proj1 (formatInputData_contract (E := example_engine) (lit "true"))
             (JBool true) eq_refl).
  - exact (proj2 (formatInputData_contract (E := example_engine)
                    (lit "not json")) eq_refl).
Defined.

(** ** The compliance-tag filter *)

Lemma includes_In (x : str) (array : list str) :
  includes x array = true <-> In x array.
Proof.
  unfold includes. rewrite existsb_exists. split.
  - intros (y & Hy & Heq). apply str_eqb_eq in Heq. now subst.
  - intros H. exists x. split; [exact H|apply str_eqb_refl].
Qed.

(** C7.  The filter keeps, in their order, exactly the test cases that have
    one of the selected tags at least, and every test case when no tag is
    selected. *)
Theorem filteredTestCases_keeps (m : ComplianceMetrics)
  (complianceFilter : list str) :
  (forall tc,
     In tc (filteredTestCases (Some m) complianceFilter) <->
     In tc (test_cases m)
     /\ (complianceFilter = []
         \/ exists tag,
              In tag (ReportTestCase.compliance_tags tc)
              /\ In tag complianceFilter))
  /\ (complianceFilter = [] ->
      filteredTestCases (Some m) complianceFilter = test_cases m)
  /\ (exists keep,
        filteredTestCases (Some m) complianceFilter = filter keep (test_cases m)).
Proof.
  unfold filteredTestCases. split; [|split].
  - intros tc. rewrite filter_In. split; intros [Hin H]; (split; [exact Hin|]).
    + destruct complianceFilter as [|tag0 tags]; [now left|right].
      cbn [length Nat.eqb] in H.
      apply existsb_exists in H as (tag & Htag & Hsel).
      exists tag. split; [exact Htag|]. now apply includes_In.
    + destruct H as [->|(tag & Htag & Hsel)]; [reflexivity|].
      destruct complianceFilter as [|tag0 tags]; [reflexivity|].
      cbn [length Nat.eqb]. apply existsb_exists.
      exists tag. split; [exact Htag|].
      now apply includes_In.
  - intros ->. simpl. induction (test_cases m) as [|tc l IH]; simpl; congruence.
  - eexists; reflexivity.
Qed.

(** Selecting [FDA] over test cases tagged [FDA, ISO] and [ISO] keeps the
    first one only. *)
Example filteredTestCases_FDA :
  let metrics :=
    Build_ComplianceMetrics (lit "file-1") 2 [lit "FDA"; lit "ISO"]
      [example_report_case (lit "TC-1") [lit "FDA"; lit "ISO"];
       example_report_case (lit "TC-2") [lit "ISO"]] in
  filteredTestCases (Some metrics) [lit "FDA"]
  = [example_report_case (lit "TC-1") [lit "FDA"; lit "ISO"]].
Proof. reflexivity. Qed.

(** ** The selection of requirements *)

Lemma handleRequirementToggle_selection (id : str) (s : state) :
  (In id (selectedRequirements s) ->
   selectedRequirements (handleRequirementToggle id s)
   = filter (fun rid => negb (str_eqb rid id)) (selectedRequirements s)
   /\ ~ In id (selectedRequirements (handleRequirementToggle id s)))
  /\ (~ In id (selectedRequirements s) ->
      selectedRequirements (handleRequirementToggle id s)
      = selectedRequirements s ++ [id]).
Proof.
  unfold handleRequirementToggle; cbn [selectedRequirements setSelectedRequirements].
  split; intros H.
  - apply includes_In in H as Hinc. rewrite Hinc. split; [reflexivity|].
    rewrite filter_In, str_eqb_refl. intros [_ Hneq]. discriminate.
  - destruct (includes id (selectedRequirements s)) eqn:Hinc; [|reflexivity].
    apply includes_In in Hinc. contradiction.
Qed.

Lemma handleSelectAllRequirements_selection (s : state) :
  selectedRequirements (handleSelectAllRequirements s) = []
  \/ selectedRequirements (handleSelectAllRequirements s)
     = List.map Requirement.requirement_id (requirements s).
Proof.
  unfold handleSelectAllRequirements.
  destruct (Nat.eqb _ _); [left|right]; reflexivity.
Qed.

Lemma selection_step_distinct (s : state) (ev : selection_event) :
  (forall data,
     ev = RequirementsFetched data ->
     NoDup (List.map Requirement.requirement_id data)) ->
  NoDup (selectedRequirements s)
  /\ NoDup (List.map Requirement.requirement_id (requirements s)) ->
  NoDup (selectedRequirements (selection_step s ev))
  /\ NoDup (List.map Requirement.requirement_id
              (requirements (selection_step s ev))).
Proof.
  intros Hev [Hsel Hreq]. destruct ev as [data|fileId|id|]; simpl.
  - split; [exact Hsel|]. now apply Hev.
  - split; constructor.
  - split; [|exact Hreq].
    destruct (includes id (selectedRequirements s)) eqn:Hinc.
    + now apply NoDup_filter.
    + apply NoDup_app; [exact Hsel|repeat constructor; intros []|].
      intros a Ha [<-|[]]. apply includes_In in Ha. congruence.
  - unfold handleSelectAllRequirements.
    destruct (Nat.eqb _ _); simpl; (split; [|exact Hreq]);
      [constructor|exact Hreq].
Qed.

Lemma selection_steps_distinct (events : list selection_event) (s : state) :
  distinct_ids events ->
  NoDup (selectedRequirements s)
  /\ NoDup (List.map Requirement.requirement_id (requirements s)) ->
  NoDup (selectedRequirements (fold_left selection_step events s)).
Proof.
  revert s; induction events as [|ev events IH]; intros s Hids Hs; simpl.
  - apply Hs.
  - apply IH.
    + intros data Hin. apply Hids. now right.
    + apply selection_step_distinct; [|exact Hs].
      intros data ->. apply Hids. now left.
Qed.

(** C10 (as amended).  When the requirements of every fetch have ids that
    differ, the selection never holds an id twice: from the empty selection,
    through fetches, file changes, toggles and select-all.  A toggle removes
    an id that is selected and appends one that is not; select-all leaves the
    selection empty or equal to the ids of the fetched requirements. *)
Theorem selection_has_no_duplicates (events : list selection_event) :
  distinct_ids events ->
  let s := fold_left selection_step events initial_state in
  NoDup (selectedRequirements s)
  /\ (forall id,
        (In id (selectedRequirements s) ->
         ~ In id (selectedRequirements (handleRequirementToggle id s)))
        /\ (~ In id (selectedRequirements s) ->
            selectedRequirements (handleRequirementToggle id s)
            = selectedRequirements s ++ [id]))
  /\ (selectedRequirements (handleSelectAllRequirements s) = []
      \/ selectedRequirements (handleSelectAllRequirements s)
         = List.map Requirement.requirement_id (requirements s)).
Proof.
  intros Hids s. split; [|split].
  - apply selection_steps_distinct; [exact Hids|].
    split; constructor.
  - intros id. split; intros H;
      now apply (handleRequirementToggle_selection id s) in H.
  - apply handleSelectAllRequirements_selection.
Qed.

Lemma selection_has_no_duplicates_witness :
  let r1 := Requirement.Make (lit "REQ-1") (lit "R1") [] [] (lit "file-1") in
  let r2 := Requirement.Make (lit "REQ-2") (lit "R2") [] [] (lit "file-1") in
  let events :=
    [FileChanged (lit "file-1"); RequirementsFetched [r1; r2];
     SelectAllClicked; RequirementToggled (lit "REQ-1");
     RequirementToggled (lit "REQ-1")] in
  distinct_ids events
  /\ selectedRequirements (fold_left selection_step events initial_state)
     = [lit "REQ-2"; lit "REQ-1"]
  /\ NoDup (selectedRequirements (fold_left selection_step events initial_state)).
Proof.
  cbv zeta.
  assert (Hids : distinct_ids
    [FileChanged (lit "file-1");
     RequirementsFetched
       [Requirement.Make (lit "REQ-1") (lit "R1") [] [] (lit "file-1");
        Requirement.Make (lit "REQ-2") (lit "R2") [] [] (lit "file-1")];
     SelectAllClicked; RequirementToggled (lit "REQ-1");
     RequirementToggled (lit "REQ-1")]).
  { intros data [H|[H|[H|[H|[H|[]]]]]]; try discriminate.
    injection H as <-. repeat constructor; simpl; intuition discriminate. }
  split; [exact Hids|]. split; [reflexivity|].
  exact (proj1 (selection_has_no_duplicates _ Hids)).
Defined.

(** C10 fails when a fetch returns two requirements with one id: select-all
    selects the id twice. *)
Lemma select_all_repeats_id :
  let r1 := Requirement.Make (lit "REQ-1") (lit "R1") [] [] (lit "file-1") in
  let r2 := Requirement.Make (lit "REQ-1") (lit "R2") [] [] (lit "file-1") in
  let s :=
    fold_left selection_step [RequirementsFetched [r1; r2]; SelectAllClicked]
      initial_state in
  selectedRequirements s = [lit "REQ-1"; lit "REQ-1"]
  /\ ~ NoDup (selectedRequirements s).
Proof.
  cbv zeta. split; [reflexivity|].
  intros H. inversion H as [|? ? Hnotin _]; subst.
  apply Hnotin. now left.
Qed.

(** ** Generation for the selected requirements *)

Section GenerationCalls.
Context {E : Engine}.

(** While the calls succeed the loop goes through the whole list. *)
Lemma run_for_each_await_ok {A : Type} (net : network) (call : str -> api_call)
  (next : proc A) (failed : exn -> proc A) (xs : list str) :
  forall issued,
    (forall before x after,
       xs = before ++ x :: after ->
       succeeds net (issued ++ List.map call before) (call x)) ->
    run net issued (for_each_await xs call next failed)
    = run net (issued ++ List.map call xs) next.
Proof.
  induction xs as [|x xs IH]; intros issued Hok; simpl.
  - now rewrite app_nil_r.
  - destruct (Hok [] x xs eq_refl) as (v & Hv).
    unfold result_of in Hv. simpl in Hv. rewrite app_nil_r in Hv. rewrite Hv.
    rewrite IH.
    + now rewrite <- app_assoc.
    + intros before y after ->.
      rewrite <- app_assoc. exact (Hok (x :: before) y after eq_refl).
Qed.

(** The loop ends at the first call that throws. *)
Lemma run_for_each_await_fail {A : Type} (net : network)
  (call : str -> api_call) (next : proc A) (failed : exn -> proc A)
  (before : list str) (x : str) (after : list str) (e : exn) :
  forall issued,
    (forall b1 y b2,
       before = b1 ++ y :: b2 ->
       succeeds net (issued ++ List.map call b1) (call y)) ->
    result_of net (issued ++ List.map call before) (call x) = Thrown e ->
    run net issued (for_each_await (before ++ x :: after) call next failed)
    = run net (issued ++ List.map call (before ++ [x])) (failed e).
Proof.
  induction before as [|y before IH]; intros issued Hok Hfail; simpl.
  - unfold result_of in Hfail. simpl in Hfail. rewrite app_nil_r in Hfail.
    now rewrite Hfail.
  - destruct (Hok [] y before eq_refl) as (v & Hv).
    unfold result_of in Hv. simpl in Hv. rewrite app_nil_r in Hv. rewrite Hv.
    rewrite IH.
    + now rewrite <- app_assoc.
    + intros b1 z b2 ->.
      rewrite <- app_assoc. exact (Hok (y :: b1) z b2 eq_refl).
    + rewrite <- app_assoc. exact Hfail.
Qed.

(** C5 (as amended).  With a selection that is not empty,
    [handleGenerateForRequirements] issues the generation calls one after the
    other in the order of the selection.  When they all succeed it issues one
    call per selected requirement and then, last, the one refetch of the
    grouped test cases.  When one of them fails, that call is the last one:
    no later requirement is generated and nothing is refetched. *)
Theorem handleGenerateForRequirements_calls (net : network) (s : state) :
  selectedRequirements s <> [] ->
  let ids := selectedRequirements s in
  let calls := calls_of net (handleGenerateForRequirements s) in
  ((forall before id after,
      ids = before ++ id :: after ->
      succeeds net (generation_calls before)
        (CallGenerateTestCasesForRequirement id)) ->
   calls = generation_calls ids ++ [CallGetTestCasesByFile (selectedFile s)])
  /\ (forall before id after,
        ids = before ++ id :: after ->
        (forall b1 y b2,
           before = b1 ++ y :: b2 ->
           succeeds net (generation_calls b1)
             (CallGenerateTestCasesForRequirement y)) ->
        fails net (generation_calls before)
          (CallGenerateTestCasesForRequirement id) ->
        calls = generation_calls (before ++ [id])).
Proof.
  intros Hne ids calls. subst ids calls.
  unfold calls_of, handleGenerateForRequirements.
  destruct (selectedRequirements s) as [|id0 ids0] eqn:Hsel; [congruence|].
  cbn [length Nat.eqb].
  cbn [selectedRequirements selectedFile setSuccess setError setLoadingGenerate].
  rewrite Hsel. split.
  - intros Hok. rewrite run_for_each_await_ok by exact Hok. reflexivity.
  - intros before id after Heq Hok (e & Hfail). rewrite Heq.
    rewrite (run_for_each_await_fail net _ _ _ before id after e)
      by assumption.
    reflexivity.
Qed.

End GenerationCalls.

(** Two requirements selected, every call accepted: two generation calls in
    the order of the selection, then the refetch. *)
Lemma handleGenerateForRequirements_calls_witness :
  selectedRequirements example_selection <> []
  /\ calls_of (E := example_engine) accepting_network
       (handleGenerateForRequirements example_selection)
     = [CallGenerateTestCasesForRequirement (lit "REQ-A");
        CallGenerateTestCasesForRequirement (lit "REQ-B");
        CallGetTestCasesByFile (lit "file-1")].
Proof.
  assert (Hne : selectedRequirements example_selection <> []) by discriminate.
  split; [exact Hne|].
  apply (proj1 (handleGenerateForRequirements_calls (E := example_engine)
                  accepting_network example_selection Hne)).
  intros before id after _. exists (JObj []). reflexivity.
Defined.

(** C5 fails when a generation call fails: with [REQ-A] and [REQ-B] selected
    and the first call answered with status 500, one call is issued, not one
    per selected requirement, and there is no refetch. *)
Lemma generation_stops_at_failure :
  calls_of (E := example_engine) failing_network
    (handleGenerateForRequirements example_selection)
  = [CallGenerateTestCasesForRequirement (lit "REQ-A")]
  /\ calls_of (E := example_engine) failing_network
       (handleGenerateForRequirements example_selection)
     <> generation_calls (selectedRequirements example_selection)
        ++ [CallGetTestCasesByFile (selectedFile example_selection)].
Proof. split; [reflexivity|]. vm_compute. discriminate. Qed.

(** ** The improve modal *)

Section ImproveModal.
Context {E : Engine}.

Lemma run_and_then {A B : Type} (net : network) (p : proc A)
  (f : A -> proc B) :
  forall issued,
    run net issued (and_then p f)
    = run net (snd (run net issued p)) (f (fst (run net issued p))).
Proof.
  induction p as [a|c k IH]; intros issued; simpl; [reflexivity|apply IH].
Qed.

Lemma results_of_app (net : network) (calls1 calls2 issued : list api_call) :
  results_of net issued (calls1 ++ calls2)
  = results_of net issued calls1 ++ results_of net (issued ++ calls1) calls2.
Proof.
  revert issued; induction calls1 as [|c calls1 IH]; intros issued; simpl.
  - now rewrite app_nil_r.
  - now rewrite IH, <- app_assoc.
Qed.

(** A step of the session issues improve calls only, leaves the selected
    file alone, and holds afterwards what [after_improve] says. *)
Lemma modal_step_run (net : network) (a : modal_action) (s : state)
  (issued : list api_call) :
  exists calls,
    snd (run net issued (modal_step a s)) = issued ++ calls
    /\ Forall is_improve_call calls
    /\ selectedFile (fst (run net issued (modal_step a s))) = selectedFile s
    /\ improvedDescription (fst (run net issued (modal_step a s)))
       = fold_left after_improve (results_of net issued calls)
           (improvedDescription s).
Proof.
  destruct a as [text|]; simpl.
  - exists []. rewrite app_nil_r. repeat split; constructor.
  - unfold handleImproveSubmit.
    destruct (improveModalData s) as [data|]; simpl.
    + eexists [_]. split; [reflexivity|]. split; [repeat constructor|].
      cbn [results_of fold_left]. unfold after_improve, result_of. simpl.
      destruct (improveTestCase _) as [result|e]; simpl; [|split; reflexivity].
      destruct (get (lit "improved_description") result) as [improved|e] eqn:Hget;
        simpl; [|split; reflexivity].
      destruct result; simpl in Hget |- *; try discriminate; split; reflexivity.
    + exists []. rewrite app_nil_r. repeat split; constructor.
Qed.

Lemma modal_actions_run (net : network) (actions : list modal_action) :
  forall s issued,
  exists calls,
    snd (run net issued (modal_actions actions s)) = issued ++ calls
    /\ Forall is_improve_call calls
    /\ selectedFile (fst (run net issued (modal_actions actions s)))
       = selectedFile s
    /\ improvedDescription (fst (run net issued (modal_actions actions s)))
       = fold_left after_improve (results_of net issued calls)
           (improvedDescription s).
Proof.
  induction actions as [|a actions IH]; intros s issued; simpl.
  - exists []. rewrite app_nil_r. repeat split; constructor.
  - rewrite run_and_then.
    destruct (modal_step_run net a s issued) as (calls1 & Hc1 & Hi1 & Hf1 & Hd1).
    destruct (IH (fst (run net issued (modal_step a s)))
                (snd (run net issued (modal_step a s))))
      as (calls2 & Hc2 & Hi2 & Hf2 & Hd2).
    exists (calls1 ++ calls2). rewrite Hc2, Hf2, Hd2, Hc1, Hf1, Hd1.
    repeat split.
    + now rewrite app_assoc.
    + apply Forall_app; now split.
    + now rewrite results_of_app, fold_left_app.
Qed.

(** What the closing tests.  In a session of the improve modal, every call
    before the closing is an improve call: submitting never refetches.
    Closing the modal refetches the grouped test cases of the selected file
    exactly when the improved description held at that moment is truthy;
    the one held is the [improved_description] read from the result of the
    last improve call from which it could be read ([held_description]), and
    the empty text when there is no such call.  Otherwise closing issues no
    call. *)
Theorem improve_modal_refetch (net : network) (data : ImproveModalData.t)
  (actions : list modal_action) (s : state) :
  let used := run net [] (modal_actions actions (handleOpenImproveModal data s)) in
  let held := held_description (results_of net [] (snd used)) in
  Forall is_improve_call (snd used)
  /\ improvedDescription (fst used) = held
  /\ calls_of net (modal_session data actions s)
     = snd used
       ++ (if truthy held then [CallGetTestCasesByFile (selectedFile s)]
           else []).
Proof.
  intros used held.
  destruct (modal_actions_run net actions (handleOpenImproveModal data s) [])
    as (calls & Hcalls & Himprove & Hfile & Hheld).
  fold used in Hcalls, Hfile, Hheld. simpl in Hcalls.
  assert (Hdesc : improvedDescription (fst used) = held).
  { subst held. rewrite Hheld, Hcalls. reflexivity. }
  split; [now rewrite Hcalls|]. split; [exact Hdesc|].
  unfold calls_of, modal_session. rewrite run_and_then. fold used.
  unfold handleCloseImproveModal.
  cbn [improvedDescription setShowImproveModal]. rewrite Hdesc.
  destruct (truthy held).
  - cbn [run snd selectedFile setLoadingTestCases setShowImproveModal].
    now rewrite Hfile.
  - simpl. now rewrite app_nil_r.
Qed.

End ImproveModal.

(** A suggestion submitted and answered with an improved description: the
    closing refetches. *)
Example improve_modal_refetches :
  calls_of (E := example_engine) improved_once_network
    (modal_session example_modal_data
       [SuggestionTyped (lit "log in first"); SubmitClicked] example_selection)
  = [CallImproveTestCase
       (ImprovePayload.Make (lit "file-1") (lit "REQ-A") (lit "TC-1")
          (lit "Open the report") (lit "log in first"));
     CallGetTestCasesByFile (lit "file-1")].
Proof. vm_compute. reflexivity. Qed.

(** C6.  The claim is that closing the improve modal refetches the grouped
    test cases exactly when an improve call of the session returned an
    improved description.  In the session below two suggestions are
    submitted; the first call returns an improved description and the second
    one an empty description.  An improvement was produced, and closing the
    modal issues no refetch, where the comment of [handleCloseImproveModal]
    says that it refreshes the test cases if an improvement was made. *)
Lemma improvement_produced_without_refetch :
  let actions :=
    [SuggestionTyped (lit "log in first"); SubmitClicked;
     SuggestionTyped (lit "shorter"); SubmitClicked] in
  let used :=
    run (E := example_engine) improved_once_network []
      (modal_actions actions
         (handleOpenImproveModal example_modal_data example_selection)) in
  let calls :=
    calls_of (E := example_engine) improved_once_network
      (modal_session example_modal_data actions example_selection) in
  improvement_produced
    (results_of (E := example_engine) improved_once_network [] (snd used))
  /\ calls = snd used
  /\ ~ In (CallGetTestCasesByFile (selectedFile example_selection)) calls.
Proof.
  vm_compute. split; [|split].
  - eexists _, _. split; [left; reflexivity|]. split; reflexivity.
  - reflexivity.
  - intros [H|[H|[]]]; discriminate.
Qed.

(** ** The API client *)

Section ApiContract.
Context {E : Engine}.

Lemma get_field (name : str) (v : json) :
  v <> JNull -> get name v = Returned (field name v).
Proof. destruct v; try reflexivity. congruence. Qed.

(** The message that [pushToJira] throws with. *)
Lemma pushToJira_message (r : response) :
  ok r = false ->
  pushToJira (Responded r) =
  Thrown (Error (match detail_of r with
                 | Some d =>
                     if truthy (Some d) then ToString d
                     else lit "Failed to push test cases to Jira."
                 | None => lit "Failed to push test cases to Jira."
                 end)).
Proof.
  intros Hok. unfold pushToJira, detail_of, json_of. cbn [fetch bind].
  rewrite Hok. cbn [negb].
  destruct (body r) as [msg|v]; [reflexivity|].
  destruct v as [|b|x|s|items|props]; try reflexivity.
  cbn [bind get field try_catch].
  destruct (lookup (lit "detail") props) as [d|]; [|reflexivity].
  unfold or_else. destruct (truthy (Some d)); reflexivity.
Qed.

(** C8 (as amended).  Every operation of the client that performs an HTTP
    call throws on every response whose status is outside 200..299.  The
    message ends with the status text for the operations of
    [reports_status_text]; [pushToJira] takes it from the [detail] of the
    body when there is a truthy one, else it is a fixed sentence.  On a
    status in 200..299 with a JSON body every operation but
    [getExtractedRequirements] returns the parsed body, and
    [getExtractedRequirements] returns, for a body other than [null], the
    [requirements] of the body when they are truthy and an empty array
    otherwise; when the body is not JSON every operation throws the parse
    error. *)
Theorem api_client_contract (op : operation) :
  (forall r, ok r = false -> exists e, perform op (Responded r) = Thrown e)
  /\ (reports_status_text op = true ->
      exists prefix,
        forall r,
          ok r = false ->
          exists e,
            perform op (Responded r) = Thrown e
            /\ message e = prefix ++ statusText r)
  /\ (forall r,
        ok r = false ->
        perform PushToJira (Responded r) =
        Thrown (Error (match detail_of r with
                       | Some d =>
                           if truthy (Some d) then ToString d
                           else lit "Failed to push test cases to Jira."
                       | None => lit "Failed to push test cases to Jira."
                       end)))
  /\ (forall r v,
        ok r = true ->
        body r = inr v ->
        op <> GetExtractedRequirements ->
        perform op (Responded r) = Returned v)
  /\ (forall r v,
        ok r = true ->
        body r = inr v ->
        v <> JNull ->
        perform GetExtractedRequirements (Responded r)
        = Returned (match field (lit "requirements") v with
                    | Some requirements =>
                        if truthy (Some requirements) then requirements
                        else JArr []
                    | None => JArr []
                    end))
  /\ (forall r msg,
        ok r = true ->
        body r = inl msg ->
        perform op (Responded r) = Thrown (Error msg)).
Proof.
  split; [|split; [|split; [|split; [|split]]]].
  - intros r Hok. destruct op; simpl;
      (unfold pushToJira, uploadDocument, extractFeatures,
         getExtractedRequirements, extractFeatures, getUploadedFiles,
         getRequirements, generateTestCasesForRequirement, getTestCases,
         getTestCasesByFile, generateTestCasesForFile, improveTestCase,
         getComplianceMetrics; cbn [fetch bind]; rewrite Hok; cbn [negb bind];
       eexists; reflexivity).
  - intros Hop. destruct op; try discriminate; eexists; intros r Hok;
      unfold perform, uploadDocument, getExtractedRequirements, extractFeatures,
        getUploadedFiles, getRequirements, generateTestCasesForRequirement,
        getTestCases, getTestCasesByFile, generateTestCasesForFile,
        getComplianceMetrics; cbn [fetch bind]; rewrite Hok; cbn [negb bind];
      eexists; (split; [reflexivity|]); cbn [message Error]; reflexivity.
  - intros r Hok. apply pushToJira_message, Hok.
  - intros r v Hok Hbody Hop.
    destruct op; try congruence;
      unfold perform, pushToJira, uploadDocument,
        extractFeatures, getUploadedFiles,
        getRequirements, generateTestCasesForRequirement, getTestCases,
        getTestCasesByFile, generateTestCasesForFile, improveTestCase,
        getComplianceMetrics, json_of; cbn [fetch bind]; rewrite Hok, Hbody;
      reflexivity.
  - intros r v Hok Hbody Hnull.
    unfold perform, getExtractedRequirements, extractFeatures, json_of.
    cbn [fetch bind]. rewrite Hok, Hbody. cbn [negb bind].
    rewrite (get_field _ v Hnull). cbn [bind]. unfold or_else.
    destruct (field (lit "requirements") v) as [requirements|];
      [|reflexivity].
    destruct (truthy (Some requirements)); reflexivity.
  - intros r msg Hok Hbody.
    destruct op; unfold perform, pushToJira, uploadDocument,
      getExtractedRequirements, extractFeatures, getUploadedFiles,
      getRequirements, generateTestCasesForRequirement, getTestCases,
      getTestCasesByFile, generateTestCasesForFile, improveTestCase,
      getComplianceMetrics, json_of; cbn [fetch bind]; rewrite Hok, Hbody;
      reflexivity.
Qed.

(** [improveTestCase] throws one sentence for every response of a status
    outside 200..299. *)
Lemma improveTestCase_message (r : response) :
  ok r = false ->
  improveTestCase (Responded r)
  = Thrown (Error (lit "Failed to improve test case")).
Proof. intros Hok. unfold improveTestCase. cbn [fetch bind]. now rewrite Hok. Qed.

End ApiContract.

(** The body [null] on a status in 200..299: [getExtractedRequirements]
    reads [requirements] of it, which throws a TypeError. *)
Example getExtractedRequirements_null_body :
  perform (E := example_engine) GetExtractedRequirements
    (Responded (Response 200 (lit "OK") (inr JNull)))
  = Thrown (Error (null_read_message (lit "requirements"))).
Proof. vm_compute. reflexivity. Qed.

(** C8 fails for [pushToJira] on a response of status 500 whose body has no
    [detail]: the message is a fixed sentence, made neither from the status
    text nor from a [detail].  It fails too for a response of status 200
    whose body is not JSON: the operation throws. *)
Lemma api_client_not_uniform :
  let refused := Response 500 (lit "Internal Server Error") (inr (JObj [])) in
  let garbled :=
    Response 200 (lit "OK") (inl (lit "Unexpected end of JSON input")) in
  perform (E := example_engine) PushToJira (Responded refused)
  = Thrown (Error (lit "Failed to push test cases to Jira."))
  /\ ~ uniform_contract (E := example_engine) PushToJira refused
  /\ ok garbled = true
  /\ perform (E := example_engine) PushToJira (Responded garbled)
     = Thrown (Error (lit "Unexpected end of JSON input"))
  /\ ~ uniform_contract (E := example_engine) PushToJira garbled.
Proof.
  cbv zeta. split; [vm_compute; reflexivity|]. split; [|split; [|split]].
  - unfold uniform_contract, message_from_response. vm_compute.
    intros [_ [(prefix & H)|H]]; [|discriminate].
    apply (f_equal (@rev N)) in H. rewrite rev_app_distr in H.
    vm_compute in H. discriminate.
  - reflexivity.
  - vm_compute; reflexivity.
  - unfold uniform_contract. vm_compute. intros [H _]. discriminate.
Qed.

(** ** The integration screen *)

Section PushToTracker.
Context {E : Engine}.

Lemma nullish_or_null (c : value) :
  nullish (or_else c (Some JNull)) (Some empty_string)
  = if truthy c then c else Some empty_string.
Proof.
  unfold or_else. destruct (truthy c) eqn:Hc; [|reflexivity].
  destruct c as [[| | | | |]|]; try reflexivity; discriminate.
Qed.

(** C9 (as amended).  The screen starts in the idle state.  With a file
    selected, [handlePushToJira] issues the one push call, and the screen
    goes through two states: the state
    rendered while the call is pending, which is the loading state with an
    empty status area, and the state in which the handler ends, which is the
    success state or the error state.  When the call returns a body that is
    not [null], the screen is in the success state, which shows the fixed
    sentence with the pushed count in it when the body has a truthy one; the
    [message] of the body is stored and the status area does not depend on
    it.  When the call throws, the error state shows the message of the
    error, or a fixed sentence when that message is empty. *)
Theorem handlePushToJira_states (net : network) (h : hub) :
  selectedFileId h <> [] ->
  let pushed := result_of net [] (CallPushToJira (selectedFileId h)) in
  let h' := fst (run net [] (handlePushToJira h)) in
  calls_of net (handlePushToJira h) = [CallPushToJira (selectedFileId h)]
  /\ (exists pending,
        shown_states net [] (handlePushToJira_rendered h) = [pending; h']
        /\ jiraStatus pending = loading
        /\ status_area pending = []
        /\ selectedFileId pending = selectedFileId h)
  /\ (jiraStatus h' = success_status \/ jiraStatus h' = error_status)
  /\ (forall result,
        pushed = Returned result ->
        result <> JNull ->
        jiraStatus h' = success_status
        /\ (truthy (field (lit "pushed_count") result) = true ->
            status_area h'
            = [Text (lit "Successfully pushed ");
               Expr (field (lit "pushed_count") result);
               Text (lit " test cases to Jira.")])
        /\ jiraMessage h'
           = or_else (field (lit "message") result)
               (Some (JStr (lit "Successfully pushed test cases to Jira.")))
        /\ (forall msg, status_area (setJiraMessage msg h') = status_area h'))
  /\ (forall err,
        pushed = Thrown err ->
        jiraStatus h' = error_status
        /\ status_area h'
           = [Expr (Some (JStr (if str_eqb (message err) []
                                then lit "Failed to push test cases to Jira."
                                else message err)))])
  /\ jiraStatus initial_hub = idle.
Proof.
  intros Hsel pushed h'. subst pushed h'.
  unfold calls_of, handlePushToJira, handlePushToJira_rendered, result_of.
  destruct (str_eqb (selectedFileId h) []) eqn:Hempty;
    [apply str_eqb_eq in Hempty; contradiction|].
  cbn [handler_of shown_states run app operation_of].
  change (selectedFileId (push_started h)) with (selectedFileId h).
  set (pushed := perform PushToJira (net [] (CallPushToJira (selectedFileId h)))).
  split.
  { destruct pushed as [result|err]; [|reflexivity].
    destruct (get (lit "pushed_count") result); [|reflexivity].
    destruct (get (lit "message") result); reflexivity. }
  split.
  { exists (push_started h). split; [|repeat split].
    destruct pushed as [result|err]; [|reflexivity].
    destruct (get (lit "pushed_count") result); [|reflexivity].
    destruct (get (lit "message") result); reflexivity. }
  split.
  { destruct pushed as [result|err]; [|right; reflexivity].
    destruct (get (lit "pushed_count") result); [|right; reflexivity].
    destruct (get (lit "message") result); [left|right]; reflexivity. }
  split.
  - intros result -> Hnull.
    rewrite !(get_field _ result Hnull). cbn [handler_of run fst].
    unfold status_area. cbn [jiraStatus jiraCount jiraMessage setJiraMessage
      setJiraCount setJiraStatus push_started].
    rewrite nullish_or_null. repeat split.
    intros ->. reflexivity.
  - split; [|reflexivity].
    intros err ->. cbn [handler_of run fst]. unfold push_failed, status_area.
    cbn [jiraStatus jiraMessage setJiraMessage setJiraStatus].
    split; [reflexivity|]. unfold or_else. cbn [truthy].
    destruct (str_eqb (message err) []); reflexivity.
Qed.

End PushToTracker.

Lemma handlePushToJira_states_witness :
  selectedFileId example_hub <> []
  /\ calls_of (E := example_engine) pushed_three_network
       (handlePushToJira example_hub)
     = [CallPushToJira (lit "file-1")]
  /\ status_area
       (fst (run (E := example_engine) failing_network []
               (handlePushToJira example_hub)))
     = [Expr (Some (JStr (lit "Failed to push test cases to Jira.")))].
Proof.
  assert (Hsel : selectedFileId example_hub <> []) by discriminate.
  pose proof (handlePushToJira_states (E := example_engine)
                pushed_three_network example_hub Hsel) as Hpushed.
  pose proof (handlePushToJira_states (E := example_engine)
                failing_network example_hub Hsel) as Hfailed.
  cbv zeta in Hpushed, Hfailed.
  split; [exact Hsel|]. split; [exact (proj1 Hpushed)|].
  destruct Hfailed as (_ & _ & _ & _ & Herr & _).
  exact (proj2 (Herr (Error (lit "Failed to push test cases to Jira."))
                  eq_refl)).
Defined.

(** C9 fails on a successful push: the success state shows the count and
    not the message of the response. *)
Lemma push_message_not_shown :
  let h' :=
    fst (run (E := example_engine) pushed_three_network []
           (handlePushToJira example_hub)) in
  jiraStatus h' = success_status
  /\ status_area h'
     = [Text (lit "Successfully pushed "); Expr (Some (JNum 3%float));
        Text (lit " test cases to Jira.")]
  /\ jiraMessage h' = Some (JStr (lit "Pushed 3 issues"))
  /\ ~ displays (Some (JStr (lit "Pushed 3 issues"))) h'.
Proof.
  unfold displays. vm_compute. repeat split.
  intros [H|[H|[H|[]]]]; discriminate.
Qed.

(** A response shaped as the declared result type of [pushToJira], the count
    under [requirements_pushed], leaves the place of the count empty. *)
Example push_count_under_other_name :
  status_area
    (fst (run (E := example_engine) requirements_pushed_network []
            (handlePushToJira example_hub)))
  = [Text (lit "Successfully pushed "); Expr (Some empty_string);
     Text (lit " test cases to Jira.")].
Proof. vm_compute. reflexivity. Qed.

(** * Further properties of the sources *)

(** ** Trimming and splitting *)

Lemma trimStart_idem (s : str) : trimStart (trimStart s) = trimStart s.
Proof.
  induction s as [|c s IH]; simpl; [reflexivity|].
  destruct (is_white_space c) eqn:Hc; [exact IH|]. simpl. now rewrite Hc.
Qed.

Lemma trimStart_keeps_end (s : str) (c : char) :
  is_white_space c = false ->
  exists w, trimStart (s ++ [c]) = w ++ [c].
Proof.
  intros Hc. induction s as [|x s IH]; simpl.
  - rewrite Hc. now exists [].
  - destruct (is_white_space x); [exact IH|]. now exists (x :: s).
Qed.

Lemma trimEnd_idem (s : str) : trimEnd (trimEnd s) = trimEnd s.
Proof. unfold trimEnd. now rewrite rev_involutive, trimStart_idem. Qed.

(** Trimming the end leaves a text that starts with no white space as it
    starts. *)
Lemma trimStart_trimEnd (s : str) :
  trimStart s = s -> trimStart (trimEnd s) = trimEnd s.
Proof.
  destruct s as [|c s]; [reflexivity|]. simpl.
  destruct (is_white_space c) eqn:Hc.
  - intros H. exfalso.
    assert (Hlen : length (trimStart s) <= length s).
    { clear. induction s as [|x s IH]; simpl; [lia|].
      destruct (is_white_space x); simpl; lia. }
    rewrite H in Hlen. simpl in Hlen. lia.
  - intros _. unfold trimEnd. simpl rev.
    destruct (trimStart_keeps_end (rev s) c Hc) as (w & ->).
    rewrite rev_app_distr. simpl. now rewrite Hc.
Qed.

Lemma trim_idem (s : str) : trim (trim s) = trim s.
Proof.
  unfold trim.
  rewrite (trimStart_trimEnd (trimStart s) (trimStart_idem s)).
  apply trimEnd_idem.
Qed.

Lemma trimStart_incl (s : str) (c : char) : In c (trimStart s) -> In c s.
Proof.
  induction s as [|x s IH]; simpl; [easy|].
  destruct (is_white_space x); [now right; apply IH|easy].
Qed.

Lemma trim_incl (s : str) (c : char) : In c (trim s) -> In c s.
Proof.
  unfold trim, trimEnd. intros H.
  apply in_rev, trimStart_incl in H. apply in_rev in H.
  now apply trimStart_incl.
Qed.

Lemma trim_forallb (p : char -> bool) (s : str) :
  forallb p s = true -> forallb p (trim s) = true.
Proof.
  rewrite !forallb_forall. intros H c Hc. apply H. now apply trim_incl.
Qed.

(** Joined pieces that do not hold the separator split into the pieces. *)
Lemma split_join (sep : char) (pieces : list str) :
  pieces <> [] ->
  Forall (fun piece => ~ In sep piece) pieces ->
  split sep (join [sep] pieces) = pieces.
Proof.
  induction pieces as [|piece pieces IH]; [congruence|].
  intros _ Hsep. inversion Hsep as [|? ? Hpiece Hrest]; subst.
  destruct pieces as [|piece' pieces].
  - simpl. clear IH Hsep Hrest.
    induction piece as [|c piece IH]; simpl; [reflexivity|].
    destruct (N.eqb c sep) eqn:Hc.
    + apply N.eqb_eq in Hc. subst. exfalso. apply Hpiece. now left.
    + rewrite IH; [reflexivity|]. intros H. apply Hpiece. now right.
  - specialize (IH ltac:(discriminate) Hrest).
    change (join [sep] (piece :: piece' :: pieces))
      with (piece ++ [sep] ++ join [sep] (piece' :: pieces)).
    clear Hsep Hrest.
    induction piece as [|c piece IHp]; simpl.
    + rewrite N.eqb_refl. simpl in IH. now rewrite IH.
    + destruct (N.eqb c sep) eqn:Hc.
      * apply N.eqb_eq in Hc. subst. exfalso. apply Hpiece. now left.
      * simpl in IHp. rewrite IHp; [reflexivity|].
        intros H. apply Hpiece. now right.
Qed.

(** ** More on [formatDescriptionSmart] and [formatDescription] *)

Lemma match_here_needs_digit (s : str) :
  match s with [] => True | c :: _ => is_digit c = false end ->
  match_here numbered_step s = None.
Proof.
  intros H. unfold match_here, numbered_step.
  rewrite matcher_Seq, matcher_Plus. now apply plus_greedy_stops.
Qed.

Lemma exec_needs_digit (s : str) :
  forallb (fun c => negb (is_digit c)) s = true ->
  exec numbered_step s = None.
Proof.
  induction s as [|c s IH]; intros H; rewrite exec_unfold.
  - now rewrite match_here_needs_digit.
  - simpl in H. apply andb_true_iff in H as [Hc Hs].
    rewrite match_here_needs_digit; [now apply IH|].
    now apply negb_true_iff in Hc.
Qed.

(** X1.  A description that holds no digit is never cut into numbered
    steps: [formatDescriptionSmart] gives what [formatDescription] gives. *)
Theorem formatDescriptionSmart_without_digits (desc : str) :
  forallb (fun c => negb (is_digit c)) desc = true ->
  formatDescriptionSmart desc = formatDescription desc.
Proof.
  intros H. unfold formatDescriptionSmart.
  now rewrite numbered_steps_unfold, (exec_needs_digit desc H).
Qed.

Lemma formatDescriptionSmart_without_digits_witness :
  formatDescriptionSmart (lit "Open the page. Press save.")
  = formatDescription (lit "Open the page. Press save.").
Proof.
  exact (formatDescriptionSmart_without_digits
           (lit "Open the page. Press save.") eq_refl).
Defined.

Lemma plus_greedy_consumed {A : Type} (p : char -> bool)
  (k : str -> option A) (s : str) (r : A) :
  plus_greedy p k s = Some r ->
  exists run s',
    s = run ++ s' /\ run <> [] /\ forallb p run = true /\ k s' = Some r.
Proof.
  induction s as [|c s IH]; simpl; [discriminate|].
  destruct (p c) eqn:Hc; [|discriminate].
  destruct (plus_greedy p k s) as [r'|] eqn:Hrec.
  - intros H; injection H as ->.
    destruct (IH eq_refl) as (run & s' & -> & _ & Hrun & Hk).
    exists (c :: run), s'. repeat split; [discriminate|simpl; now rewrite Hc|exact Hk].
  - intros Hk. exists [c], s. repeat split; [discriminate|simpl; now rewrite Hc|exact Hk].
Qed.

(** A regex without a group leaves the capture as it is. *)
Lemma matcher_groupless (r : regex) :
  groupless r = true ->
  forall k st res,
    matcher r k st = Some res ->
    exists st', capture st' = capture st /\ k st' = Some res.
Proof.
  induction r as [p|r1 IH1 r2 IH2|r1 IH1 r2 IH2|p|r1 IH1|r1 IH1|];
    simpl; intros Hg k st res.
  - destruct st as [[|c s] cap]; simpl; [discriminate|].
    destruct (p c); [|discriminate]. intros H. now exists (MState s cap).
  - apply andb_true_iff in Hg as [Hg1 Hg2]. intros H.
    apply (IH1 Hg1) in H as (st1 & Hc1 & H).
    apply (IH2 Hg2) in H as (st2 & Hc2 & H).
    exists st2. split; [congruence|exact H].
  - apply andb_true_iff in Hg as [Hg1 Hg2].
    destruct (matcher r1 k st) as [res'|] eqn:H1.
    + intros H; injection H as ->. now apply (IH1 Hg1).
    + now apply (IH2 Hg2).
  - intros H. apply plus_greedy_shorter in H as (s' & _ & H).
    now exists (MState s' (capture st)).
  - discriminate.
  - destruct (matcher r1 (fun st' => Some st') st) as [st1|] eqn:H1;
      [|discriminate].
    apply (IH1 Hg) in H1 as (st2 & Hc & Heq). injection Heq as ->.
    intros H. exists (MState (rest st) (capture st1)). split; [exact Hc|exact H].
  - destruct st as [[|c s] cap]; simpl; [|discriminate].
    intros H. now exists (MState [] cap).
Qed.

(** What the description regex captures holds no digit. *)
Lemma match_here_captures_plain (s : str) (st : mstate) :
  match_here numbered_step s = Some st ->
  exists cap,
    capture st = Some cap
    /\ forallb (fun c => negb (is_digit c)) cap = true.
Proof.
  unfold match_here, numbered_step. intros H.
  rewrite matcher_Seq in H.
  apply matcher_progress in H as (st1 & _ & _ & H).
  rewrite matcher_Seq in H.
  apply matcher_progress in H as (st2 & _ & _ & H).
  rewrite matcher_Seq in H.
  apply matcher_progress in H as (st3 & _ & _ & H).
  rewrite matcher_Seq, matcher_Group, matcher_Plus in H.
  apply plus_greedy_consumed in H as (run & s' & Hrest & _ & Hrun & H).
  cbn [rest] in H. rewrite Hrest, firstn_captured in H.
  apply matcher_groupless in H as (st4 & Hcap & H); [|reflexivity].
  injection H as <-. exists run. split; [exact Hcap|exact Hrun].
Qed.

Lemma exec_captures_plain (s : str) (st : mstate) :
  exec numbered_step s = Some st ->
  exists cap,
    capture st = Some cap
    /\ forallb (fun c => negb (is_digit c)) cap = true.
Proof.
  induction s as [|c s IH]; rewrite exec_unfold;
    destruct (match_here numbered_step _) as [st'|] eqn:H; try discriminate.
  - intros Heq; injection Heq as ->. now apply match_here_captures_plain in H.
  - exact IH.
Qed.

Lemma collect_steps_items (fuel : nat) :
  forall s item,
    In item (collect_steps fuel s) ->
    forallb (fun c => negb (is_digit c)) item = true /\ trim item = item.
Proof.
  induction fuel as [|fuel IH]; intros s item; simpl; [easy|].
  destruct (exec numbered_step s) as [st|] eqn:Hexec; [|easy].
  destruct (exec_captures_plain s st Hexec) as (cap & -> & Hplain).
  intros [<-|Hin]; [|now apply (IH (rest st))].
  split; [now apply trim_forallb|apply trim_idem].
Qed.

(** X2.  When [formatDescriptionSmart] cuts a description into numbered
    steps, the list is not empty, and no step holds a digit or has white
    space around it. *)
Theorem formatDescriptionSmart_steps (desc : str) :
  exec numbered_step desc <> None ->
  formatDescriptionSmart desc = OrderedList (numbered_steps desc)
  /\ numbered_steps desc <> []
  /\ Forall (fun item =>
               forallb (fun c => negb (is_digit c)) item = true
               /\ trim item = item)
       (numbered_steps desc).
Proof.
  intros Hmatch.
  assert (Hne : numbered_steps desc <> []).
  { rewrite numbered_steps_unfold.
    destruct (exec numbered_step desc) as [st|] eqn:Hexec; [|congruence].
    destruct (exec_captures_plain desc st Hexec) as (cap & -> & _).
    discriminate. }
  split; [|split; [exact Hne|]].
  - unfold formatDescriptionSmart.
    destruct (numbered_steps desc); [congruence|reflexivity].
  - apply Forall_forall. intros item. apply collect_steps_items.
Qed.

Lemma formatDescriptionSmart_steps_witness :
  exec numbered_step (lit "1. use 2 items 2. done") <> None
  /\ numbered_steps (lit "1. use 2 items 2. done") = [lit "done"]
  /\ Forall (fun item =>
               forallb (fun c => negb (is_digit c)) item = true
               /\ trim item = item)
       (numbered_steps (lit "1. use 2 items 2. done")).
Proof.
  assert (H : exec numbered_step (lit "1. use 2 items 2. done") <> None)
    by (vm_compute; discriminate).
  split; [exact H|]. split; [vm_compute; reflexivity|].
  exact (proj2 (proj2 (formatDescriptionSmart_steps
                         (lit "1. use 2 items 2. done") H))).
Defined.

(** X3.  Lines joined by newlines come back as the list of these lines:
    for two or more lines, none blank and none holding a newline,
    [formatDescription] shows one item per line, in their order. *)
Theorem formatDescription_of_lines (lines : list str) :
  1 < length lines ->
  Forall (fun line => blank line = false /\ ~ In newline line) lines ->
  formatDescription (join [newline] lines) = OrderedList lines.
Proof.
  intros Hlen Hlines. rewrite formatDescription_lines. unfold surviving_lines.
  rewrite split_join.
  - rewrite forallb_filter_id.
    + apply Nat.ltb_lt in Hlen. now rewrite Hlen.
    + apply forallb_forall. intros line Hin.
      rewrite Forall_forall in Hlines. destruct (Hlines line Hin) as [-> _].
      reflexivity.
  - destruct lines; [simpl in Hlen; lia|discriminate].
  - eapply Forall_impl; [|exact Hlines]. now intros line [_ H].
Qed.

Lemma formatDescription_of_lines_witness :
  formatDescription
    (join [newline] [lit "Open the page"; lit "Press save"; lit "Log out"])
  = OrderedList [lit "Open the page"; lit "Press save"; lit "Log out"].
Proof.
  apply (formatDescription_of_lines
           [lit "Open the page"; lit "Press save"; lit "Log out"]).
  - simpl; lia.
  - repeat constructor; simpl; intuition discriminate.
Defined.

Lemma filter_split_items (desc : str) :
  Forall (fun item => blank item = false /\ ~ In newline item)
    (surviving_lines desc).
Proof.
  unfold surviving_lines. apply Forall_forall. intros item Hin.
  apply filter_In in Hin as [Hin Hblank]. split.
  - now apply negb_true_iff in Hblank.
  - pose proof (split_pieces newline desc) as H.
    rewrite Forall_forall in H. now apply H.
Qed.

(** X4.  Whatever the description, [formatDescriptionSmart] never shows an
    empty list, and a paragraph always holds the description unchanged; a
    list made by [formatDescription] has two items or more, none of them
    blank and none holding a newline. *)
Theorem formatted_description_shape (desc : str) :
  match formatDescriptionSmart desc with
  | OrderedList items => items <> []
  | Paragraph text => text = desc
  end
  /\ match formatDescription desc with
     | OrderedList items =>
         1 < length items
         /\ Forall (fun item => blank item = false /\ ~ In newline item) items
     | Paragraph text => text = desc
     end.
Proof.
  assert (Hlines :
    match formatDescription desc with
    | OrderedList items =>
        1 < length items
        /\ Forall (fun item => blank item = false /\ ~ In newline item) items
    | Paragraph text => text = desc
    end).
  { rewrite formatDescription_lines.
    destruct (Nat.ltb 1 (length (surviving_lines desc))) eqn:Hlen;
      [|reflexivity].
    split; [now apply Nat.ltb_lt|apply filter_split_items]. }
  split; [|exact Hlines].
  unfold formatDescriptionSmart.
  destruct (numbered_steps desc) as [|item items]; cbn [length Nat.ltb Nat.leb].
  - destruct (formatDescription desc) as [items|text]; [|exact Hlines].
    destruct Hlines as [Hlen _]. destruct items; [simpl in Hlen; lia|discriminate].
  - discriminate.
Qed.

(** ** The tags of a test case card *)

Lemma commas_to_pipes_join (tags : list str) :
  Forall (fun tag => ~ In comma tag) tags ->
  commas_to_pipes (join [comma] tags) = join [pipe] tags.
Proof.
  assert (Hid : forall tag, ~ In comma tag -> commas_to_pipes tag = tag).
  { induction tag as [|c tag IH]; intros H; simpl; [reflexivity|].
    destruct (N.eqb c comma) eqn:Hc.
    - apply N.eqb_eq in Hc. subst. exfalso. apply H. now left.
    - rewrite IH; [reflexivity|]. intros Hin. apply H. now right. }
  induction tags as [|tag tags IH]; intros Htags; [reflexivity|].
  inversion Htags as [|? ? Htag Hrest]; subst.
  destruct tags as [|tag' tags]; [now apply Hid|].
  change (join [comma] (tag :: tag' :: tags))
    with (tag ++ [comma] ++ join [comma] (tag' :: tags)).
  change (join [pipe] (tag :: tag' :: tags))
    with (tag ++ [pipe] ++ join [pipe] (tag' :: tags)).
  assert (Happ : forall a b,
            commas_to_pipes (a ++ b) = commas_to_pipes a ++ commas_to_pipes b)
    by (intros a b; apply map_app).
  rewrite !Happ, (Hid tag Htag), (IH Hrest). reflexivity.
Qed.

(** X5.  The card never shows an empty tag, a tag with white space around
    it, or a tag that holds the separator [|]. *)
Theorem card_tags_clean (complianceTags : str) :
  Forall (fun tag => tag <> [] /\ trim tag = tag /\ ~ In pipe tag)
    (card_tags complianceTags).
Proof.
  unfold card_tags. apply Forall_forall. intros tag Hin.
  apply filter_In in Hin as [Hin Hne].
  apply in_map_iff in Hin as (piece & <- & Hpiece).
  split; [|split].
  - intros Heq. rewrite Heq in Hne. discriminate.
  - apply trim_idem.
  - intros Hpipe. apply trim_incl in Hpipe.
    pose proof (split_pieces pipe complianceTags) as H.
    rewrite Forall_forall in H. now apply (H piece Hpiece).
Qed.

(** X6.  Tags written with commas between them come back on the card: the
    screen turns the commas into [|] and the card splits there, so for tags
    that are not empty, have no white space around them and hold neither
    separator, the card shows exactly these tags in their order. *)
Theorem card_tags_of_joined (tags : list str) :
  Forall clean_tag tags ->
  card_tags (commas_to_pipes (join [comma] tags)) = tags.
Proof.
  intros Hclean. destruct tags as [|tag0 tags0]; [reflexivity|].
  set (tags := tag0 :: tags0) in *.
  rewrite Forall_forall in Hclean.
  rewrite commas_to_pipes_join
    by (apply Forall_forall; intros tag Hin; now apply (Hclean tag Hin)).
  unfold card_tags. rewrite split_join.
  - rewrite (map_ext_in trim (fun tag => tag)), map_id.
    + apply forallb_filter_id, forallb_forall. intros tag Hin.
      destruct (Hclean tag Hin) as (Hne & _).
      destruct tag; [congruence|reflexivity].
    + intros tag Hin. now destruct (Hclean tag Hin) as (_ & Htrim & _).
  - discriminate.
  - apply Forall_forall. intros tag Hin. now apply (Hclean tag Hin).
Qed.

Lemma card_tags_of_joined_witness :
  card_tags (commas_to_pipes (lit "FDA,IEC 62304,ISO 13485"))
  = [lit "FDA"; lit "IEC 62304"; lit "ISO 13485"].
Proof.
  apply (card_tags_of_joined [lit "FDA"; lit "IEC 62304"; lit "ISO 13485"]).
  repeat constructor; simpl; try discriminate; intuition discriminate.
Defined.

(** The card shows the input data of a test case exactly when the text
    is not blank and is not the text [null]. *)
Theorem shows_input_data_when (inputData : str) :
  shows_input_data inputData = true <->
  blank inputData = false /\ inputData <> lit "null".
Proof.
  unfold shows_input_data. rewrite !andb_true_iff, !negb_true_iff. split.
  - intros [[_ Hnull] Htrim]. split.
    + destruct (blank inputData) eqn:Hb; [|reflexivity].
      apply trim_nil in Hb. rewrite Hb in Htrim. discriminate.
    + intros Heq. rewrite Heq, str_eqb_refl in Hnull. discriminate.
  - intros [Hblank Hnull]. repeat split.
    + destruct inputData; [discriminate|reflexivity].
    + destruct (str_eqb inputData (lit "null")) eqn:Heq; [|reflexivity].
      now apply str_eqb_eq in Heq.
    + destruct (str_eqb (trim inputData) []) eqn:Heq; [|reflexivity].
      apply str_eqb_nil, trim_nil in Heq. congruence.
Qed.

(** ** The cards and their order *)

Lemma fold_left_sum {A : Type} (f : A -> nat) (l : list A) (a : nat) :
  fold_left (fun acc x => acc + f x) l a = a + list_sum (List.map f l).
Proof.
  revert a; induction l as [|x l IH]; intros a; simpl; [lia|].
  rewrite IH. lia.
Qed.

Lemma Permutation_flat_map_pointwise {A B : Type} (f g : A -> list B)
  (l : list A) :
  (forall x, Permutation (f x) (g x)) ->
  Permutation (flat_map f l) (flat_map g l).
Proof.
  intros H. induction l as [|x l IH]; simpl; [constructor|].
  now apply Permutation_app.
Qed.

Lemma Permutation_filter {A : Type} (p : A -> bool) (l l' : list A) :
  Permutation l l' -> Permutation (filter p l) (filter p l').
Proof.
  induction 1 as [|x l l' _ IH|x y l|l l' l'' _ IH1 _ IH2]; simpl.
  - constructor.
  - destruct (p x); [now constructor|exact IH].
  - destruct (p x), (p y); try reflexivity. apply perm_swap.
  - now transitivity (filter p l').
Qed.

Section OrderedLists.
Context {A : Type} (key : A -> str).

Lemma sort_ordered_id (l : list A) :
  ordered_by key l ->
  sort (fun a b => compare_keys (key a) (key b)) l = l.
Proof.
  intros Hl. apply (stable_arrangement_unique key l).
  - apply sort_stable_arrangement.
  - repeat split; [reflexivity|exact Hl].
Qed.

Lemma ordered_by_map (f : A -> A) (l : list A) :
  (forall a, key (f a) = key a) ->
  ordered_by key l -> ordered_by key (List.map f l).
Proof.
  intros Hf. unfold ordered_by. induction 1 as [|a l _ IH Ha]; simpl.
  - constructor.
  - constructor; [exact IH|]. apply Forall_map.
    eapply Forall_impl; [|exact Ha]. intros b Hb. simpl. now rewrite !Hf.
Qed.

Lemma filter_key_le_1 (k : str) (l : list A) :
  NoDup (List.map key l) ->
  length (filter (fun a => str_eqb (key a) k) l) <= 1.
Proof.
  induction l as [|a l IH]; simpl; intros Hnd; [lia|].
  inversion Hnd as [|? ? Hnotin Hnd']; subst.
  destruct (str_eqb (key a) k) eqn:Ha; [|now apply IH].
  apply str_eqb_eq in Ha. subst k.
  assert (Hnone : filter (fun b => str_eqb (key b) (key a)) l = []).
  { clear IH Hnd Hnd'. induction l as [|b l IH]; [reflexivity|]. simpl.
    destruct (str_eqb (key b) (key a)) eqn:Hb.
    - apply str_eqb_eq in Hb. exfalso. apply Hnotin. left. exact Hb.
    - apply IH. intros Hin. apply Hnotin. now right. }
  rewrite Hnone. simpl. lia.
Qed.

(** With keys that differ, the sorted list depends on the elements only,
    not on the order in which they come. *)
Lemma sort_of_permutation (l l' : list A) :
  NoDup (List.map key l) ->
  Permutation l l' ->
  sort (fun a b => compare_keys (key a) (key b)) l
  = sort (fun a b => compare_keys (key a) (key b)) l'.
Proof.
  intros Hnd Hperm. apply (ordered_filters_eq key); try apply sort_ordered.
  intros k. rewrite !sort_stable.
  pose proof (Permutation_filter (fun a => str_eqb (key a) k) l l' Hperm) as Hf.
  pose proof (filter_key_le_1 k l Hnd) as Hlen.
  destruct (filter (fun a => str_eqb (key a) k) l) as [|a [|b rest]].
  - now apply Permutation_nil in Hf.
  - now apply Permutation_length_1_inv in Hf.
  - simpl in Hlen. lia.
Qed.

End OrderedLists.

Lemma cards_test_case_ids (selectedFile : str)
  (groupedTestCases : list GroupedRequirement.t) :
  List.map testCaseId (cards selectedFile groupedTestCases)
  = flat_map
      (fun req =>
         List.map TestCase.tc_id
           (sort_test_cases (GroupedRequirement.test_cases req)))
      (sort
         (fun a b =>
            compare_keys (GroupedRequirement.req_title_id a)
              (GroupedRequirement.req_title_id b))
         groupedTestCases).
Proof.
  unfold cards, sortedTestCases.
  induction (sort _ groupedTestCases) as [|req l IH]; [reflexivity|].
  cbn [List.map flat_map]. rewrite map_app, IH, map_map. reflexivity.
Qed.

(** X7.  The display ordering loses no test case and shows none twice: the
    ids on the cards are the ids of all the test cases of all the
    requirements, rearranged, and the number in the heading is the number of
    cards and the number of test cases. *)
Theorem cards_cover_test_cases (selectedFile : str)
  (groupedTestCases : list GroupedRequirement.t) :
  Permutation
    (concat
       (List.map
          (fun req => List.map TestCase.tc_id (GroupedRequirement.test_cases req))
          groupedTestCases))
    (List.map testCaseId (cards selectedFile groupedTestCases))
  /\ existing_count groupedTestCases
     = length (cards selectedFile groupedTestCases)
  /\ existing_count groupedTestCases
     = length (concat (List.map GroupedRequirement.test_cases groupedTestCases)).
Proof.
  assert (Hperm :
    Permutation
      (concat
         (List.map
            (fun req =>
               List.map TestCase.tc_id (GroupedRequirement.test_cases req))
            groupedTestCases))
      (List.map testCaseId (cards selectedFile groupedTestCases))).
  { rewrite cards_test_case_ids, <- flat_map_concat_map.
    etransitivity.
    - apply Permutation_flat_map.
      apply (sort_perm GroupedRequirement.req_title_id).
    - apply Permutation_flat_map_pointwise. intros req.
      apply Permutation_map, (sort_perm TestCase.tc_id). }
  assert (Hcount :
    existing_count groupedTestCases
    = length (cards selectedFile groupedTestCases)).
  { unfold existing_count, cards. rewrite fold_left_sum, length_flat_map.
    simpl. f_equal. apply map_ext. intros req. now rewrite length_map. }
  split; [exact Hperm|]. split; [exact Hcount|].
  rewrite Hcount, <- (length_map testCaseId).
  rewrite <- (Permutation_length Hperm). clear.
  induction groupedTestCases as [|req l IH]; [reflexivity|].
  cbn [List.map concat]. now rewrite !length_app, length_map, IH.
Qed.

Lemma sort_test_cases_idem (cases : list TestCase.t) :
  sort_test_cases (sort_test_cases cases) = sort_test_cases cases.
Proof.
  unfold sort_test_cases.
  apply (sort_ordered_id TestCase.tc_id), sort_ordered.
Qed.

(** X8.  Ordering a second time changes nothing: what [sortedTestCases]
    returns is in display order already. *)
Theorem sortedTestCases_idempotent
  (groupedTestCases : list GroupedRequirement.t) :
  sortedTestCases (sortedTestCases groupedTestCases)
  = sortedTestCases groupedTestCases.
Proof.
  unfold sortedTestCases at 1.
  rewrite (sort_ordered_id GroupedRequirement.req_title_id).
  - unfold sortedTestCases. rewrite map_map. apply map_ext. intros req.
    unfold with_test_cases. cbn. now rewrite sort_test_cases_idem.
  - unfold sortedTestCases.
    apply (ordered_by_map GroupedRequirement.req_title_id).
    + reflexivity.
    + apply sort_ordered.
Qed.

(** X9.  When the requirements have title ids that differ, the display does
    not depend on the order in which they arrive: two lists that hold the
    same requirements are displayed alike. *)
Theorem sortedTestCases_of_permutation
  (groups groups' : list GroupedRequirement.t) :
  NoDup (List.map GroupedRequirement.req_title_id groups) ->
  Permutation groups groups' ->
  sortedTestCases groups = sortedTestCases groups'.
Proof.
  intros Hnd Hperm. unfold sortedTestCases.
  now rewrite (sort_of_permutation GroupedRequirement.req_title_id
                 groups groups' Hnd Hperm).
Qed.

Lemma sortedTestCases_of_permutation_witness :
  let r1 := example_requirement (lit "R1") [example_test_case (lit "TC-1")] in
  let r2 := example_requirement (lit "R2") [example_test_case (lit "TC-2")] in
  sortedTestCases [r2; r1] = sortedTestCases [r1; r2].
Proof.
  cbv zeta.
  apply sortedTestCases_of_permutation.
  - repeat constructor; simpl; intuition discriminate.
  - apply perm_swap.
Defined.

(** ** More on the selection of requirements *)

Lemma filter_not_id (id : str) (l : list str) :
  ~ In id l -> filter (fun rid => negb (str_eqb rid id)) l = l.
Proof.
  intros H. apply forallb_filter_id, forallb_forall. intros x Hx.
  destruct (str_eqb x id) eqn:Heq; [|reflexivity].
  apply str_eqb_eq in Heq. congruence.
Qed.

Lemma filter_removes_id (id : str) (l : list str) :
  ~ In id (filter (fun rid => negb (str_eqb rid id)) l).
Proof. rewrite filter_In, str_eqb_refl. now intros [_ H]. Qed.

(** X10.  Toggling a requirement twice selects the same requirements as
    before: the list is the same when the requirement was not selected, and
    when it was selected it has moved to the end of the list. *)
Theorem handleRequirementToggle_twice (id : str) (s : state) :
  let twice := handleRequirementToggle id (handleRequirementToggle id s) in
  (~ In id (selectedRequirements s) ->
   selectedRequirements twice = selectedRequirements s)
  /\ (In id (selectedRequirements s) ->
      selectedRequirements twice
      = filter (fun rid => negb (str_eqb rid id)) (selectedRequirements s)
        ++ [id])
  /\ (forall rid,
        In rid (selectedRequirements twice) <-> In rid (selectedRequirements s)).
Proof.
  cbv zeta.
  destruct (handleRequirementToggle_selection id s) as [Hin1 Hout1].
  destruct (handleRequirementToggle_selection id (handleRequirementToggle id s))
    as [Hin2 Hout2].
  assert (Hout : ~ In id (selectedRequirements s) ->
            selectedRequirements
              (handleRequirementToggle id (handleRequirementToggle id s))
            = selectedRequirements s).
  { intros H. rewrite (proj1 (Hin2 ltac:(rewrite (Hout1 H); apply in_or_app;
                                         right; now left))).
    rewrite (Hout1 H), filter_app, (filter_not_id id _ H). simpl.
    rewrite str_eqb_refl. apply app_nil_r. }
  assert (Hin : In id (selectedRequirements s) ->
            selectedRequirements
              (handleRequirementToggle id (handleRequirementToggle id s))
            = filter (fun rid => negb (str_eqb rid id)) (selectedRequirements s)
              ++ [id]).
  { intros H. destruct (Hin1 H) as [Heq Hnot].
    now rewrite (Hout2 Hnot), Heq. }
  split; [exact Hout|]. split; [exact Hin|].
  intros rid. destruct (in_dec (list_eq_dec N.eq_dec) id (selectedRequirements s))
    as [H|H].
  - rewrite (Hin H), in_app_iff, filter_In. simpl. split.
    + intros [[Hrid _]|[<-|[]]]; assumption.
    + intros Hrid. destruct (str_eqb rid id) eqn:Heq.
      * apply str_eqb_eq in Heq. right. left. now symmetry.
      * left. now split.
  - now rewrite (Hout H).
Qed.

(** X11.  With requirements fetched, the select-all button goes between
    everything and nothing: when the numbers of selected and of fetched
    requirements differ a click selects the ids of all the requirements, in
    their order, and the next click selects none; when the numbers are equal
    it is the other way round. *)
Theorem handleSelectAllRequirements_alternates (s : state) :
  requirements s <> [] ->
  let all := List.map Requirement.requirement_id (requirements s) in
  let once := handleSelectAllRequirements s in
  let twice := handleSelectAllRequirements once in
  (length (selectedRequirements s) <> length (requirements s) ->
   selectedRequirements once = all /\ selectedRequirements twice = [])
  /\ (length (selectedRequirements s) = length (requirements s) ->
      selectedRequirements once = [] /\ selectedRequirements twice = all).
Proof.
  intros Hne all once twice. subst all once twice.
  unfold handleSelectAllRequirements.
  destruct (Nat.eqb (length (selectedRequirements s)) (length (requirements s)))
    eqn:Hlen.
  - apply Nat.eqb_eq in Hlen. split; [congruence|]. intros _.
    cbn [selectedRequirements requirements setSelectedRequirements length].
    destruct (requirements s) as [|r rs]; [congruence|].
    cbn [length Nat.eqb]. split; reflexivity.
  - apply Nat.eqb_neq in Hlen. split; [|congruence]. intros _.
    cbn [selectedRequirements requirements setSelectedRequirements].
    rewrite length_map, Nat.eqb_refl. split; reflexivity.
Qed.

Lemma handleSelectAllRequirements_alternates_witness :
  let r1 := Requirement.Make (lit "REQ-1") (lit "R1") [] [] (lit "file-1") in
  let r2 := Requirement.Make (lit "REQ-2") (lit "R2") [] [] (lit "file-1") in
  let s := setRequirements [r1; r2] initial_state in
  requirements s <> []
  /\ selectedRequirements (handleSelectAllRequirements s)
     = [lit "REQ-1"; lit "REQ-2"]
  /\ selectedRequirements
       (handleSelectAllRequirements (handleSelectAllRequirements s)) = [].
Proof.
  cbv zeta.
  assert (Hne : requirements
                  (setRequirements
                     [Requirement.Make (lit "REQ-1") (lit "R1") [] []
                        (lit "file-1");
                      Requirement.Make (lit "REQ-2") (lit "R2") [] []
                        (lit "file-1")] initial_state) <> [])
    by discriminate.
  split; [exact Hne|].
  apply (proj1 (handleSelectAllRequirements_alternates _ Hne)).
  simpl. lia.
Defined.

Lemma toggles_append (ids : list str) :
  forall s,
    NoDup ids ->
    (forall id, In id ids -> ~ In id (selectedRequirements s)) ->
    selectedRequirements
      (fold_left (fun s id => handleRequirementToggle id s) ids s)
    = selectedRequirements s ++ ids
    /\ selectedFile (fold_left (fun s id => handleRequirementToggle id s) ids s)
       = selectedFile s.
Proof.
  induction ids as [|id ids IH]; intros s Hnd Hfresh; simpl.
  - now rewrite app_nil_r.
  - inversion Hnd as [|? ? Hnotin Hnd']; subst.
    pose proof (proj2 (handleRequirementToggle_selection id s)
                  (Hfresh id (or_introl eq_refl))) as Hsel.
    destruct (IH (handleRequirementToggle id s) Hnd') as [Hs Hf].
    + intros x Hx. rewrite Hsel, in_app_iff. intros [H|[<-|[]]].
      * now apply (Hfresh x (or_intror Hx)).
      * contradiction.
    + rewrite Hs, Hf, Hsel, <- app_assoc. split; reflexivity.
Qed.

(** ** The generation handlers *)

Section GenerationHandlers.
Context {E : Engine}.

Lemma run_extends {A : Type} (net : network) (p : proc A) :
  forall issued, exists more, snd (run net issued p) = issued ++ more.
Proof.
  induction p as [a|c k IH]; intros issued; simpl.
  - exists []. now rewrite app_nil_r.
  - destruct (IH (perform (operation_of c) (net issued c)) (issued ++ [c]))
      as (more & ->).
    exists (c :: more). now rewrite <- app_assoc.
Qed.

(** The loop ends in what follows it or in the handler of a failure. *)
Lemma run_for_each_await_cases {A : Type} (net : network)
  (call : str -> api_call) (next : proc A) (failed : exn -> proc A)
  (xs : list str) :
  forall issued,
    (exists issued',
       run net issued (for_each_await xs call next failed)
       = run net issued' next)
    \/ (exists issued' e,
          run net issued (for_each_await xs call next failed)
          = run net issued' (failed e)).
Proof.
  induction xs as [|x xs IH]; intros issued; simpl.
  - left. now exists issued.
  - destruct (perform _ _) as [v|e].
    + apply IH.
    + right. now exists (issued ++ [call x]), e.
Qed.

Lemma refreshed_cases (o : outcome json) (s : state) :
  (exists v, refreshed o s = Returned (setGroupedTestCases v s))
  \/ (exists e, refreshed o s = Thrown e).
Proof.
  unfold refreshed. destruct o as [data|e]; [|right; now exists e].
  cbn [bind]. destruct (get (lit "requirements") data) as [requirements|e];
    [|right; now exists e].
  cbn [bind]. left.
  destruct (or_else requirements (Some (JArr []))); eexists; reflexivity.
Qed.

Lemma handleGenerateForRequirements_all_succeed (net : network) (s : state) :
  selectedRequirements s <> [] ->
  (forall before id after,
     selectedRequirements s = before ++ id :: after ->
     succeeds net (generation_calls before)
       (CallGenerateTestCasesForRequirement id)) ->
  run net [] (handleGenerateForRequirements s)
  = run net (generation_calls (selectedRequirements s))
      (Await (CallGetTestCasesByFile (selectedFile s))
         (fun o =>
            Done
              (try_catch
                 (s' <- refreshed o
                          (setSuccess
                             (JStr (lit "Test cases generated for selected requirements."))
                             (setSuccess empty_string
                                (setError [] (setLoadingGenerate true s)))) ;;
                  Returned (setLoadingGenerate false s'))
                 (fun _ =>
                    setLoadingGenerate false
                      (setError requirements_failed_message
                         (setSuccess
                            (JStr (lit "Test cases generated for selected requirements."))
                            (setSuccess empty_string
                               (setError [] (setLoadingGenerate true s))))))))).
Proof.
  intros Hne Hok. unfold handleGenerateForRequirements.
  destruct (selectedRequirements s) as [|id0 ids0] eqn:Hsel; [congruence|].
  cbn [length Nat.eqb].
  cbn [selectedRequirements selectedFile setSuccess setError setLoadingGenerate].
  rewrite Hsel. rewrite run_for_each_await_ok by exact Hok. reflexivity.
Qed.

(** X12.  The generation calls follow the order of the clicks: from an
    empty selection, with requirements that differ ticked one after the
    other, [handleGenerateForRequirements] issues, when the calls succeed,
    one call per requirement in the order in which they were ticked, and
    then the refetch. *)
Theorem generation_follows_clicks (net : network) (s : state)
  (ids : list str) :
  ids <> [] ->
  NoDup ids ->
  selectedRequirements s = [] ->
  (forall before id after,
     ids = before ++ id :: after ->
     succeeds net (generation_calls before)
       (CallGenerateTestCasesForRequirement id)) ->
  calls_of net
    (handleGenerateForRequirements
       (fold_left (fun s id => handleRequirementToggle id s) ids s))
  = generation_calls ids ++ [CallGetTestCasesByFile (selectedFile s)].
Proof.
  intros Hne Hnd Hempty Hok.
  destruct (toggles_append ids s Hnd) as [Hsel Hfile].
  { intros id _. now rewrite Hempty. }
  rewrite Hempty in Hsel. simpl in Hsel.
  unfold calls_of. rewrite handleGenerateForRequirements_all_succeed.
  - rewrite Hsel, Hfile. reflexivity.
  - now rewrite Hsel.
  - now rewrite Hsel.
Qed.

(** X13.  [handleGenerateForFile] issues the generation call for the
    selected file and, only when that call returned a body that is not
    [null], the refetch of the grouped test cases after it. *)
Theorem handleGenerateForFile_calls (net : network) (s : state) :
  calls_of net (handleGenerateForFile s)
  = CallGenerateTestCasesForFile (selectedFile s)
    :: match result_of net [] (CallGenerateTestCasesForFile (selectedFile s)) with
       | Returned JNull | Thrown _ => []
       | Returned _ => [CallGetTestCasesByFile (selectedFile s)]
       end.
Proof.
  unfold calls_of, handleGenerateForFile, result_of.
  cbn [run app operation_of selectedFile setSuccess setError setLoadingGenerate].
  destruct (perform GenerateTestCasesForFile _) as [result|e];
    [destruct result|]; reflexivity.
Qed.

Lemma generation_outcome (s0 s : state) (o : outcome json) :
  error s = [] ->
  groupedTestCases s = groupedTestCases s0 ->
  forall msg,
    let s' :=
      try_catch
        (s' <- refreshed o s ;; Returned (setLoadingGenerate false s'))
        (fun _ => setLoadingGenerate false (setError msg s)) in
    error s' = []
    \/ (error s' = msg /\ groupedTestCases s' = groupedTestCases s0).
Proof.
  intros Herr Hgrouped msg.
  destruct (refreshed_cases o s) as [(v & ->)|(e & ->)]; cbn.
  - now left.
  - right. now split.
Qed.

(** X14.  Whatever the network does, a click on the generate button ends
    with no error message, or with one of three fixed sentences and the
    results that the screen held before: a failure never removes results
    and never shows a text of the backend. *)
Theorem generation_failure_keeps_results (net : network) (s : state) :
  let s' := fst (run net [] (handleGenerateClick s)) in
  error s' = []
  \/ (groupedTestCases s' = groupedTestCases s
      /\ (error s' = select_one_message
          \/ error s' = file_failed_message
          \/ error s' = requirements_failed_message)).
Proof.
  cbv zeta. unfold handleGenerateClick.
  destruct (generationOption s).
  - unfold handleGenerateForFile.
    cbn [run selectedFile setSuccess setError setLoadingGenerate].
    destruct (bind _ _) as [msg|e].
    + cbn [run fst].
      edestruct generation_outcome as [H|[H1 H2]];
        [| |left; exact H|right; split; [exact H2|right; left; exact H1]];
        reflexivity.
    + right. split; [reflexivity|]. right. now left.
  - unfold handleGenerateForRequirements.
    destruct (Nat.eqb (length (selectedRequirements s)) 0).
    + right. split; [reflexivity|]. now left.
    + match goal with
      | |- context [run net [] (for_each_await ?xs ?call ?next ?failed)] =>
          destruct (run_for_each_await_cases net call next failed xs [])
            as [(issued & ->)|(issued & e & ->)]
      end.
      * cbn [run fst].
        edestruct generation_outcome as [H|[H1 H2]];
          [| |left; exact H|right; split; [exact H2|right; right; exact H1]];
          reflexivity.
      * right. split; [reflexivity|]. right. now right.
Qed.

(** X15.  When the generation calls succeed and the refetch fails, the
    screen reports a failure: the success message is set, the error message
    is set too, and the notification shows the error. *)
Theorem refetch_failure_hides_success (net : network) (s : state) :
  selectedRequirements s <> [] ->
  (forall before id after,
     selectedRequirements s = before ++ id :: after ->
     succeeds net (generation_calls before)
       (CallGenerateTestCasesForRequirement id)) ->
  fails net (generation_calls (selectedRequirements s))
    (CallGetTestCasesByFile (selectedFile s)) ->
  let s' := fst (run net [] (handleGenerateForRequirements s)) in
  success s' = JStr (lit "Test cases generated for selected requirements.")
  /\ notification s' = Some (JStr requirements_failed_message)
  /\ groupedTestCases s' = groupedTestCases s.
Proof.
  intros Hne Hok (e & Hfail). cbv zeta.
  rewrite handleGenerateForRequirements_all_succeed by assumption.
  cbn [run fst operation_of]. unfold result_of in Hfail.
  cbn [operation_of] in Hfail. rewrite Hfail. cbn. repeat split.
Qed.

End GenerationHandlers.

Lemma generation_follows_clicks_witness :
  calls_of (E := example_engine) accepting_network
    (handleGenerateForRequirements
       (fold_left (fun s id => handleRequirementToggle id s)
          [lit "REQ-B"; lit "REQ-A"]
          (setSelectedFile (lit "file-1") initial_state)))
  = [CallGenerateTestCasesForRequirement (lit "REQ-B");
     CallGenerateTestCasesForRequirement (lit "REQ-A");
     CallGetTestCasesByFile (lit "file-1")].
Proof.
  apply (generation_follows_clicks (E := example_engine) accepting_network
           (setSelectedFile (lit "file-1") initial_state)
           [lit "REQ-B"; lit "REQ-A"]).
  - discriminate.
  - repeat constructor; simpl; intuition discriminate.
  - reflexivity.
  - intros before id after _. exists (JObj []). reflexivity.
Defined.

Lemma refetch_failure_hides_success_witness :
  let s' :=
    fst (run (E := example_engine) refetch_failing_network []
           (handleGenerateForRequirements example_selection)) in
  success s' = JStr (lit "Test cases generated for selected requirements.")
  /\ notification s' = Some (JStr requirements_failed_message)
  /\ groupedTestCases s' = groupedTestCases example_selection.
Proof.
  cbv zeta.
  apply (refetch_failure_hides_success (E := example_engine)
           refetch_failing_network example_selection).
  - discriminate.
  - intros before id after _. exists (JObj []). reflexivity.
  - eexists. vm_compute. reflexivity.
Defined.

(** ** Loading flags, the selection of a file and the generation options *)

Section ScreenFlow.
Context {E : Engine}.
Variable StringToNumber : str -> float.
Variable as_requirements : json -> list Requirement.t.

Lemma refreshed_flags (o : outcome json) (s s' : state) :
  refreshed o s = Returned s' ->
  loadingTestCases s' = loadingTestCases s
  /\ loadingGenerate s' = loadingGenerate s
  /\ loadingImprove s' = loadingImprove s.
Proof.
  destruct (refreshed_cases o s) as [(v & ->)|(e & ->)]; [|discriminate].
  intros H; injection H as <-. repeat split.
Qed.

Lemma generation_flags (s0 s : state) (o : outcome json) (msg : str) :
  loadingTestCases s = loadingTestCases s0 ->
  loadingImprove s = loadingImprove s0 ->
  let s' :=
    try_catch
      (s' <- refreshed o s ;; Returned (setLoadingGenerate false s'))
      (fun _ => setLoadingGenerate false (setError msg s)) in
  loadingTestCases s' = loadingTestCases s0
  /\ loadingGenerate s' = false
  /\ loadingImprove s' = loadingImprove s0.
Proof.
  intros H1 H2.
  destruct (refreshed_cases o s) as [(v & ->)|(e & ->)]; cbn; auto.
Qed.

(** X16.  No handler leaves a loading flag set: from a state in which
    nothing is loading, every handler of the generation screen ends, whatever
    the network does, in a state in which nothing is loading. *)
Theorem handlers_clear_loading (net : network) (s : state) :
  nothing_loading s ->
  nothing_loading (fst (run net [] (handleGenerateClick s)))
  /\ nothing_loading (fst (run net [] (handleImproveSubmit s)))
  /\ nothing_loading (fst (run net [] (handleCloseImproveModal s)))
  /\ nothing_loading (fst (run net [] (fileSelectedEffect StringToNumber s)))
  /\ nothing_loading (fst (run net [] (fetchRequirements as_requirements s)))
  /\ (forall option,
        nothing_loading
          (fst (run net []
                  (handleGenerationOptionChange as_requirements option s)))).
Proof.
  intros (Ht & Hg & Hi). unfold nothing_loading.
  split; [|split; [|split; [|split; [|split]]]].
  - unfold handleGenerateClick. destruct (generationOption s).
    + unfold handleGenerateForFile.
      cbn [run selectedFile setSuccess setError setLoadingGenerate].
      destruct (bind _ _) as [msg|e]; [|now cbn].
      cbn [run fst].
      edestruct generation_flags as (H1 & H2 & H3);
        [| |rewrite H1, H2, H3; repeat split; eassumption]; reflexivity.
    + unfold handleGenerateForRequirements.
      destruct (Nat.eqb (length (selectedRequirements s)) 0); [now cbn|].
      match goal with
      | |- context [run net [] (for_each_await ?xs ?call ?next ?failed)] =>
          destruct (run_for_each_await_cases net call next failed xs [])
            as [(issued & ->)|(issued & e & ->)]
      end; [|now cbn].
      cbn [run fst].
      edestruct generation_flags as (H1 & H2 & H3);
        [| |rewrite H1, H2, H3; repeat split; eassumption]; reflexivity.
  - unfold handleImproveSubmit.
    destruct (improveModalData s) as [data|]; [|now cbn].
    cbn [run fst]. destruct (perform _ _) as [result|e]; [|now cbn].
    cbn [bind].
    destruct (get (lit "improved_description") result) as [improved|e];
      [|now cbn].
    cbn [bind]. destruct (get (lit "message") result) as [msg|e]; now cbn.
  - unfold handleCloseImproveModal.
    destruct (truthy _); [|now cbn].
    cbn [run fst].
    match goal with
    | |- context [refreshed ?o ?s1] =>
        destruct (refreshed_cases o s1) as [(v & ->)|(e & ->)]
    end; now cbn.
  - unfold fileSelectedEffect.
    destruct (str_eqb (selectedFile s) []); [now cbn|].
    cbn [run fst]. destruct (perform _ _) as [data|e]; [|now cbn].
    cbn [bind]. destruct (get (lit "requirements") data) as [requirements|e];
      [|now cbn].
    cbn [bind try_catch]. destruct requirements as [v|]; [|now cbn].
    destruct (has_entries StringToNumber (Some v)); now cbn.
  - unfold fetchRequirements. cbn [run fst].
    destruct (perform _ _); now cbn.
  - intros [|]; unfold handleGenerationOptionChange, fetchRequirements;
      cbn [run fst]; [now cbn|].
    destruct (perform _ _); now cbn.
Qed.

(** X17.  The effect of selecting a file.  With no file selected it issues
    no call and clears the results, the requirements and the selection.
    With a file it issues the one fetch of the grouped test cases: a body
    with a non-empty array of requirements becomes the results and hides the
    generation options; a body with no requirements or an empty array of
    them leaves no results and shows the generation options; a failure, or
    the body [null], reports a fixed sentence and leaves the results as they
    were. *)
Theorem fileSelectedEffect_outcome (net : network) (s : state) :
  let fetched :=
    result_of net [] (CallGetTestCasesByFile (selectedFile s)) in
  let s' := fst (run net [] (fileSelectedEffect StringToNumber s)) in
  let calls := calls_of net (fileSelectedEffect StringToNumber s) in
  (selectedFile s = [] ->
   calls = []
   /\ groupedTestCases s' = JArr []
   /\ requirements s' = []
   /\ selectedRequirements s' = [])
  /\ (selectedFile s <> [] ->
      calls = [CallGetTestCasesByFile (selectedFile s)]
      /\ (forall data item items,
            fetched = Returned data ->
            field (lit "requirements") data = Some (JArr (item :: items)) ->
            groupedTestCases s' = JArr (item :: items)
            /\ shows_generation_options s' = Returned false
            /\ error s' = [])
      /\ (forall data,
            fetched = Returned data ->
            data <> JNull ->
            field (lit "requirements") data = None
            \/ field (lit "requirements") data = Some (JArr []) ->
            groupedTestCases s' = JArr []
            /\ shows_generation_options s' = Returned true
            /\ error s' = [])
      /\ (fails net [] (CallGetTestCasesByFile (selectedFile s))
          \/ fetched = Returned JNull ->
          error s' = lit "Failed to fetch test cases"
          /\ groupedTestCases s' = groupedTestCases s)).
Proof.
  cbv zeta. unfold calls_of, fileSelectedEffect, result_of. split.
  - intros Hfile. rewrite Hfile. cbn. repeat split.
  - intros Hfile.
    destruct (selectedFile s) as [|c file] eqn:Hsel; [congruence|].
    cbn [str_eqb run fst snd app operation_of selectedFile setSuccess
         setError setLoadingTestCases].
    rewrite Hsel.
    split; [reflexivity|]. split; [|split].
    + intros data item items -> Hfield.
      assert (Hnull : data <> JNull) by (intros ->; discriminate).
      cbn [bind]. rewrite (get_field _ data Hnull), Hfield.
      cbn. unfold shows_generation_options.
      cbn [selectedFile groupedTestCases setLoadingTestCases
           setGroupedTestCases setSuccess setError].
      rewrite Hsel. repeat split.
    + intros data -> Hnull Hfield.
      cbn [bind]. rewrite (get_field _ data Hnull).
      destruct Hfield as [->| ->]; cbn; unfold shows_generation_options;
        cbn [selectedFile groupedTestCases setLoadingTestCases
             setGroupedTestCases setSuccess setError];
        rewrite Hsel; repeat split.
    + intros [(e & He)| ->];
        [unfold result_of in He; cbn [operation_of] in He; rewrite He|];
        cbn; repeat split.
Qed.

(** X18.  Choosing a generation option clears the results and keeps the
    ticked requirements as they are; the option "file" issues no call, the
    option "requirements" issues the one fetch of the requirements of the
    selected file. *)
Theorem handleGenerationOptionChange_effect (net : network) (s : state) :
  calls_of net (handleGenerationOptionChange as_requirements OptionFile s) = []
  /\ calls_of net
       (handleGenerationOptionChange as_requirements OptionRequirements s)
     = [CallGetRequirements (selectedFile s)]
  /\ (forall option,
        let s' :=
          fst (run net []
                 (handleGenerationOptionChange as_requirements option s)) in
        generationOption s' = option
        /\ groupedTestCases s' = JArr []
        /\ selectedRequirements s' = selectedRequirements s
        /\ success s' = empty_string).
Proof.
  unfold calls_of, handleGenerationOptionChange, fetchRequirements.
  split; [reflexivity|]. split; [reflexivity|].
  intros [|]; cbn [run fst]; [now cbn|].
  destruct (perform _ _); now cbn.
Qed.

(** X19.  An enabled generate button always generates: when the button is
    not disabled, a click issues a generation call first, for the selected
    file or, in the mode "requirements", for the first ticked requirement;
    the guard of [handleGenerateForRequirements] against an empty selection
    is never met through the button. *)
Theorem enabled_button_generates (net : network) (s : state) :
  generate_disabled s = false ->
  exists later,
    calls_of net (handleGenerateClick s)
    = match generationOption s with
      | OptionFile => CallGenerateTestCasesForFile (selectedFile s)
      | OptionRequirements =>
          CallGenerateTestCasesForRequirement (hd [] (selectedRequirements s))
      end :: later
    /\ (generationOption s = OptionRequirements ->
        selectedRequirements s <> []).
Proof.
  unfold generate_disabled, handleGenerateClick, calls_of. intros Hen.
  apply orb_false_iff in Hen as [_ Hen].
  destruct (generationOption s).
  - unfold handleGenerateForFile.
    cbn [run app selectedFile setSuccess setError setLoadingGenerate].
    match goal with
    | |- context [run net ?issued ?p] =>
        destruct (run_extends net p issued) as (more & ->)
    end.
    exists more. split; [reflexivity|discriminate].
  - unfold handleGenerateForRequirements. rewrite Hen.
    cbn [selectedRequirements setSuccess setError setLoadingGenerate].
    destruct (selectedRequirements s) as [|id ids]; [discriminate|].
    cbn [for_each_await run app hd].
    match goal with
    | |- context [run net ?issued ?p] =>
        destruct (run_extends net p issued) as (more & ->)
    end.
    exists more. split; [reflexivity|discriminate].
Qed.

End ScreenFlow.

Lemma handlers_clear_loading_witness :
  nothing_loading example_selection
  /\ nothing_loading
       (fst (run (E := example_engine) failing_network []
               (handleGenerateClick example_selection))).
Proof.
  assert (H : nothing_loading example_selection) by (repeat split).
  split; [exact H|].
  exact (proj1 (handlers_clear_loading (E := example_engine)
                  example_to_number example_as_requirements
                  failing_network example_selection H)).
Defined.

Lemma enabled_button_generates_witness :
  generate_disabled example_selection = false
  /\ exists later,
       calls_of (E := example_engine) accepting_network
         (handleGenerateClick example_selection)
       = CallGenerateTestCasesForFile (lit "file-1") :: later.
Proof.
  split; [reflexivity|].
  destruct (enabled_button_generates (E := example_engine) accepting_network
              example_selection eq_refl) as (later & H & _).
  exists later. exact H.
Defined.

(** ** More on the improve modal *)

Section ImproveRequests.
Context {E : Engine}.

Lemma last_of_cons {A : Type} (l : list A) :
  forall a d d', last (a :: l) d = last (a :: l) d'.
Proof.
  induction l as [|b l IH]; intros a d d'; [reflexivity|].
  change (last (b :: l) d = last (b :: l) d'). apply IH.
Qed.

Lemma typed_suggestions (net : network) (typed : list str) :
  forall s issued,
    snd (run net issued (modal_actions (List.map SuggestionTyped typed) s))
    = issued
    /\ improveInput
         (fst (run net issued (modal_actions (List.map SuggestionTyped typed) s)))
       = last typed (improveInput s)
    /\ improveModalData
         (fst (run net issued (modal_actions (List.map SuggestionTyped typed) s)))
       = improveModalData s
    /\ loadingImprove
         (fst (run net issued (modal_actions (List.map SuggestionTyped typed) s)))
       = loadingImprove s.
Proof.
  induction typed as [|text typed IH]; intros s issued; [now cbn|].
  cbn [List.map modal_actions modal_step and_then].
  destruct (IH (handleImproveInput text s) issued) as (Hc & Hi & Hd & Hl).
  rewrite Hc, Hi, Hd, Hl. repeat split.
  destruct typed as [|text' typed]; [reflexivity|].
  change (last (text :: text' :: typed) (improveInput s))
    with (last (text' :: typed) (improveInput s)).
  apply last_of_cons.
Qed.

Lemma modal_actions_app (net : network) (actions1 actions2 : list modal_action) :
  forall s issued,
    run net issued (modal_actions (actions1 ++ actions2) s)
    = run net (snd (run net issued (modal_actions actions1 s)))
        (modal_actions actions2 (fst (run net issued (modal_actions actions1 s)))).
Proof.
  induction actions1 as [|a actions1 IH]; intros s issued; [reflexivity|].
  cbn [app modal_actions]. rewrite !run_and_then. apply IH.
Qed.

(** X20.  What a submit sends.  With the modal opened on a test case and
    suggestions typed one after the other, the submit button is disabled
    exactly when the suggestion typed last is empty (or none was typed), and
    a submit issues one improve call, which carries the identifiers and the
    description with which the modal was opened and the suggestion typed
    last. *)
Theorem submit_sends_last_suggestion (net : network)
  (data : ImproveModalData.t) (typed : list str) (s : state) :
  loadingImprove s = false ->
  submit_disabled
    (fst (run net []
            (modal_actions (List.map SuggestionTyped typed)
               (handleOpenImproveModal data s))))
  = str_eqb (last typed []) []
  /\ calls_of net
       (modal_actions (List.map SuggestionTyped typed ++ [SubmitClicked])
          (handleOpenImproveModal data s))
     = [CallImproveTestCase
          (ImprovePayload.Make
             (ImproveModalData.file_id data)
             (ImproveModalData.requirement_id data)
             (ImproveModalData.tc_id data)
             (ImproveModalData.original_description data)
             (last typed []))].
Proof.
  intros Hloading.
  destruct (typed_suggestions net typed (handleOpenImproveModal data s) [])
    as (Hc & Hi & Hd & Hl).
  split.
  - unfold submit_disabled. rewrite Hl, Hi.
    destruct s; cbn in Hloading; subst; reflexivity.
  - unfold calls_of. rewrite modal_actions_app.
    rewrite Hc. cbn [modal_actions modal_step and_then].
    rewrite run_and_then. unfold handleImproveSubmit. rewrite Hd.
    cbn [improveModalData handleOpenImproveModal setShowImproveModal
         setImprovedDescription setImproveInput setImproveModalData].
    cbn [improveInput setError setLoadingImprove].
    rewrite Hi. reflexivity.
Qed.

Lemma modal_step_same (net : network) (a : modal_action) (s1 s2 : state)
  (issued : list api_call) :
  same_session_state s1 s2 ->
  snd (run net issued (modal_step a s1)) = snd (run net issued (modal_step a s2))
  /\ same_session_state (fst (run net issued (modal_step a s1)))
       (fst (run net issued (modal_step a s2))).
Proof.
  intros (Hf & Hd & Hi & Hdesc). destruct a as [text|].
  - destruct s1, s2; cbn in *; cbv; repeat split; congruence.
  - cbn [modal_step]. unfold handleImproveSubmit. rewrite Hd.
    destruct (improveModalData s2) as [data|] eqn:Hdata;
      [|cbn; repeat split; congruence].
    cbn [improveInput setError setLoadingImprove]. rewrite Hi.
    cbn [run fst snd]. split; [reflexivity|].
    destruct (perform _ _) as [result|e];
      [|destruct s1, s2; cbn in *; cbv; repeat split; congruence].
    cbn [bind].
    destruct (get (lit "improved_description") result) as [improved|e];
      [|destruct s1, s2; cbn in *; cbv; repeat split; congruence].
    cbn [bind]. destruct (get (lit "message") result) as [msg|e];
      destruct s1, s2; cbn in *; cbv; repeat split; congruence.
Qed.

Lemma modal_actions_same (net : network) (actions : list modal_action) :
  forall s1 s2 issued,
    same_session_state s1 s2 ->
    snd (run net issued (modal_actions actions s1))
    = snd (run net issued (modal_actions actions s2))
    /\ same_session_state (fst (run net issued (modal_actions actions s1)))
         (fst (run net issued (modal_actions actions s2))).
Proof.
  induction actions as [|a actions IH]; intros s1 s2 issued Hsame.
  - cbn. now split.
  - cbn [modal_actions]. rewrite !run_and_then.
    destruct (modal_step_same net a s1 s2 issued Hsame) as [Hc Hs].
    rewrite Hc. now apply IH.
Qed.

(** X21.  A session of the improve modal does not depend on what came
    before it: opened on the same test case with the same file selected and
    used in the same way, it issues the same calls whatever the messages, the
    flags, the suggestion and the improved description that the screen held
    from earlier sessions. *)
Theorem modal_session_fresh (net : network) (data : ImproveModalData.t)
  (actions : list modal_action) (s1 s2 : state) :
  selectedFile s1 = selectedFile s2 ->
  calls_of net (modal_session data actions s1)
  = calls_of net (modal_session data actions s2).
Proof.
  intros Hfile. unfold calls_of, modal_session. rewrite !run_and_then.
  destruct (modal_actions_same net actions
              (handleOpenImproveModal data s1) (handleOpenImproveModal data s2) [])
    as [Hc (Hf & _ & _ & Hdesc)].
  { repeat split. exact Hfile. }
  rewrite Hc. unfold handleCloseImproveModal.
  cbn [improvedDescription setShowImproveModal]. rewrite Hdesc.
  destruct (truthy _); [|reflexivity].
  cbn [run snd selectedFile setLoadingTestCases setShowImproveModal].
  now rewrite Hf.
Qed.

End ImproveRequests.

Lemma submit_sends_last_suggestion_witness :
  calls_of (E := example_engine) improved_once_network
    (modal_actions
       (List.map SuggestionTyped [lit "add"; lit "add a negative case"]
        ++ [SubmitClicked])
       (handleOpenImproveModal example_modal_data example_selection))
  = [CallImproveTestCase
       (ImprovePayload.Make
          (ImproveModalData.file_id example_modal_data)
          (ImproveModalData.requirement_id example_modal_data)
          (ImproveModalData.tc_id example_modal_data)
          (ImproveModalData.original_description example_modal_data)
          (lit "add a negative case"))].
Proof.
  exact (proj2 (submit_sends_last_suggestion (E := example_engine)
                  improved_once_network example_modal_data
                  [lit "add"; lit "add a negative case"] example_selection
                  eq_refl)).
Defined.

Lemma modal_session_fresh_witness :
  calls_of (E := example_engine) improved_once_network
    (modal_session example_modal_data [SubmitClicked]
       (setImprovedDescription (Some (JStr (lit "old improvement")))
          example_selection))
  = calls_of (E := example_engine) improved_once_network
      (modal_session example_modal_data [SubmitClicked] example_selection).
Proof.
  exact (modal_session_fresh (E := example_engine) improved_once_network
           example_modal_data [SubmitClicked]
           (setImprovedDescription (Some (JStr (lit "old improvement")))
              example_selection)
           example_selection eq_refl).
Defined.

(** ** More on the integration screen *)

Section PushResults.
Context {E : Engine}.

(** X22.  The outcome of a push does not depend on what the screen showed
    before: with the same file selected, two screens end in the same state
    after the push, so no count and no message of an earlier push is left. *)
Theorem handlePushToJira_forgets (net : network) (h1 h2 : hub) :
  selectedFileId h1 <> [] ->
  selectedFileId h1 = selectedFileId h2 ->
  run net [] (handlePushToJira h1) = run net [] (handlePushToJira h2).
Proof.
  intros Hne Heq. destruct h1 as [file status1 message1 count1].
  destruct h2 as [file2 status2 message2 count2].
  cbn [selectedFileId] in Hne, Heq. subst file2.
  unfold handlePushToJira, handlePushToJira_rendered, push_started, push_failed.
  cbv [setJiraCount setJiraMessage setJiraStatus selectedFileId jiraStatus
       jiraMessage jiraCount].
  destruct (str_eqb file []) eqn:Hempty;
    [apply str_eqb_eq in Hempty; contradiction|].
  reflexivity.
Qed.

(** X23.  What the user reads after a failed push.  When the tracker
    answers with a status outside 200..299 and a body whose [detail] is a
    text that is not empty, the error state shows this text; when the
    body has no [detail], it shows the fixed sentence; when the request is
    rejected before any response, it shows the message of the rejection. *)
Theorem push_failure_shown (net : network) (h : hub) :
  selectedFileId h <> [] ->
  let h' := fst (run net [] (handlePushToJira h)) in
  (forall r d,
     net [] (CallPushToJira (selectedFileId h)) = Responded r ->
     ok r = false ->
     detail_of r = Some (JStr d) ->
     d <> [] ->
     jiraStatus h' = error_status
     /\ status_area h' = [Expr (Some (JStr d))])
  /\ (forall r,
        net [] (CallPushToJira (selectedFileId h)) = Responded r ->
        ok r = false ->
        detail_of r = None ->
        jiraStatus h' = error_status
        /\ status_area h'
           = [Expr (Some (JStr (lit "Failed to push test cases to Jira.")))])
  /\ (forall msg,
        net [] (CallPushToJira (selectedFileId h)) = Rejected msg ->
        msg <> [] ->
        jiraStatus h' = error_status
        /\ status_area h' = [Expr (Some (JStr msg))]).
Proof.
  intros Hne. cbv zeta. unfold handlePushToJira, handlePushToJira_rendered.
  destruct (str_eqb (selectedFileId h) []) eqn:Hempty;
    [apply str_eqb_eq in Hempty; contradiction|].
  change (selectedFileId (push_started h)) with (selectedFileId h).
  cbn [handler_of run fst operation_of perform]. split; [|split].
  - intros r d -> Hok Hdetail Hd.
    rewrite (pushToJira_message r Hok), Hdetail.
    destruct d as [|c d]; [congruence|]. cbn. repeat split.
  - intros r -> Hok Hdetail.
    rewrite (pushToJira_message r Hok), Hdetail. cbn. repeat split.
  - intros msg -> Hmsg.
    destruct msg as [|c msg]; [congruence|]. cbn. repeat split.
Qed.

End PushResults.

Lemma handlePushToJira_forgets_witness :
  run (E := example_engine) failing_network []
    (handlePushToJira
       (setJiraCount (Some (JNum 3%float))
          (setJiraStatus success_status example_hub)))
  = run (E := example_engine) failing_network [] (handlePushToJira example_hub).
Proof.
  apply (handlePushToJira_forgets (E := example_engine) failing_network
           (setJiraCount (Some (JNum 3%float))
              (setJiraStatus success_status example_hub))
           example_hub).
  - discriminate.
  - reflexivity.
Defined.

Lemma push_failure_shown_witness :
  status_area
    (fst (run (E := example_engine) refused_push_network []
            (handlePushToJira example_hub)))
  = [Expr (Some (JStr (lit "Jira project not found")))]
  /\ status_area
       (fst (run (E := example_engine) offline_network []
               (handlePushToJira example_hub)))
     = [Expr (Some (JStr (lit "Failed to fetch")))].
Proof.
  assert (Hne : selectedFileId example_hub <> []) by discriminate.
  split.
  - refine (proj2 (proj1 (push_failure_shown (E := example_engine)
                            refused_push_network example_hub Hne)
                     _ (lit "Jira project not found") eq_refl eq_refl eq_refl _)).
    discriminate.
  - refine (proj2 (proj2 (proj2 (push_failure_shown (E := example_engine)
                                   offline_network example_hub Hne))
                     (lit "Failed to fetch") eq_refl _)).
    discriminate.
Defined.

(** ** The export of the reports screen *)

Lemma join_cons (sep piece : str) (pieces : list str) :
  pieces <> [] -> join sep (piece :: pieces) = piece ++ sep ++ join sep pieces.
Proof. destruct pieces; [congruence|reflexivity]. Qed.

Lemma In_join (c : char) (sep : str) (pieces : list str) :
  In c (join sep pieces) ->
  In c sep \/ exists piece, In piece pieces /\ In c piece.
Proof.
  induction pieces as [|piece pieces IH]; [intros []|].
  destruct pieces as [|piece' pieces].
  - intros Hc. right. exists piece. split; [now left|exact Hc].
  - rewrite join_cons by discriminate. rewrite !in_app_iff.
    intros [Hc|[Hc|Hc]].
    + right. exists piece. split; [now left|exact Hc].
    + now left.
    + destruct (IH Hc) as [Hsep|(p & Hp & Hcp)]; [now left|].
      right. exists p. split; [now right|exact Hcp].
Qed.

Lemma csv_heading_one_line : ~ In newline csv_heading.
Proof.
  intros Hin.
  assert (Hex : existsb (N.eqb newline) csv_heading = true).
  { apply existsb_exists. exists newline. split; [exact Hin|apply N.eqb_refl]. }
  vm_compute in Hex. discriminate.
Qed.

Lemma csv_line_one_line (r : list str) :
  (forall x, In x r -> ~ In newline x) -> ~ In newline (csv_line r).
Proof.
  intros Hr Hin. unfold csv_line in Hin.
  apply In_join in Hin. destruct Hin as [Hin|(piece & Hpiece & Hin)].
  - destruct Hin as [Hin|[]]. discriminate.
  - apply in_map_iff in Hpiece. destruct Hpiece as (x & <- & Hx).
    rewrite !in_app_iff in Hin. destruct Hin as [Hin|[Hin|Hin]].
    + destruct Hin as [Hin|[]]. discriminate.
    + exact (Hr x Hx Hin).
    + destruct Hin as [Hin|[]]. discriminate.
Qed.

(** X24.  The shape of the export: when no exported field (the tags joined
    as they are written) holds a line break, the text of the file, cut at
    its line breaks, is the heading followed by one line per exported test
    case, in the order of the table. *)
Theorem csv_one_line_per_case (cases : list ReportTestCase.t) :
  cases <> [] ->
  (forall tc x, In tc cases -> In x (csv_row tc) -> ~ In newline x) ->
  split newline (csv cases)
  = csv_heading :: List.map (fun tc => csv_line (csv_row tc)) cases.
Proof.
  intros Hne Hfields. unfold csv. rewrite map_map.
  set (lines := List.map (fun tc => csv_line (csv_row tc)) cases).
  assert (Hlines : lines <> []).
  { destruct cases; [congruence|discriminate]. }
  rewrite <- app_assoc.
  change (csv_heading ++ [newline] ++ join [newline] lines)
    with (csv_heading ++ [newline] ++ join [newline] lines).
  rewrite <- (join_cons [newline] csv_heading lines Hlines).
  apply split_join; [discriminate|].
  constructor; [exact csv_heading_one_line|].
  apply Forall_forall. intros line Hline.
  apply in_map_iff in Hline. destruct Hline as (tc & <- & Htc).
  apply csv_line_one_line. intros x Hx. exact (Hfields tc x Htc Hx).
Qed.

Lemma csv_one_line_per_case_witness :
  split newline (csv example_export)
  = csv_heading :: List.map (fun tc => csv_line (csv_row tc)) example_export.
Proof.
  apply (csv_one_line_per_case example_export); [discriminate|].
  intros tc x Htc Hx Hin.
  assert (Hex : existsb (N.eqb newline) x = true).
  { apply existsb_exists. exists newline. split; [exact Hin|apply N.eqb_refl]. }
  destruct Htc as [<-|[<-|[]]];
    repeat (destruct Hx as [<-|Hx]; [vm_compute in Hex; discriminate|]);
    destruct Hx.
Defined.

(** X25.  Choosing more tags never hides a test case: once a tag is chosen,
    a test case shown under a choice of tags is shown under every larger
    choice. *)
Theorem more_tags_show_more (metrics : option ComplianceMetrics)
  (chosen larger : list str) (tc : ReportTestCase.t) :
  chosen <> [] ->
  incl chosen larger ->
  In tc (filteredTestCases metrics chosen) ->
  In tc (filteredTestCases metrics larger).
Proof.
  intros Hne Hincl. unfold filteredTestCases.
  destruct metrics as [m|]; [|intros []].
  rewrite !filter_In. intros [Hin Hkeep]. split; [exact Hin|].
  destruct chosen as [|tag0 chosen]; [congruence|].
  cbn [length Nat.eqb] in Hkeep.
  destruct (Nat.eqb (length larger) 0); [reflexivity|].
  apply existsb_exists in Hkeep. destruct Hkeep as (tag & Htag & Hinc).
  apply existsb_exists. exists tag. split; [exact Htag|].
  apply includes_In. apply Hincl. apply includes_In. exact Hinc.
Qed.

Lemma more_tags_show_more_witness :
  In (example_report_case (lit "TC-1") [lit "FDA"])
    (filteredTestCases
       (Some (Build_ComplianceMetrics (lit "file-1") 1 [lit "FDA"; lit "ISO"]
                [example_report_case (lit "TC-1") [lit "FDA"]]))
       [lit "FDA"; lit "ISO"]).
Proof.
  apply (more_tags_show_more _ [lit "FDA"] [lit "FDA"; lit "ISO"]).
  - discriminate.
  - intros tag [<-|[]]. now left.
  - vm_compute. now left.
Defined.

(** ** The views of the reports screen *)

Section MetricsViews.
Variable as_metrics : json -> option ComplianceMetrics.

(** X26.  A failed fetch of the metrics looks like a document without test
    cases: when the request for the selected document fails, the loading
    flag is cleared, the screen shows what it shows when there are no
    metrics at all (never the report, and no message of the failure), and
    the table has no test case under any choice of tags. *)
Theorem failed_metrics_look_empty (net : fetched) (r : Reports.t) (e : exn) :
  Reports.selectedFile r <> [] ->
  getComplianceMetrics net = Thrown e ->
  let r' := metricsEffect as_metrics net r in
  Reports.loading r' = false
  /\ reports_view_of r'
     = reports_view_of (Reports.setLoading false (Reports.setMetrics None r))
  /\ reports_view_of r' <> MetricsReport
  /\ forall complianceFilter,
       filteredTestCases (Reports.metrics r') complianceFilter = [].
Proof.
  intros Hsel Hfail. cbv zeta. unfold metricsEffect.
  destruct (str_eqb (Reports.selectedFile r) []) eqn:Hempty;
    [apply str_eqb_eq in Hempty; contradiction|].
  rewrite Hfail. destruct r as [files selected metrics loading].
  unfold reports_view_of.
  cbv [Reports.setLoading Reports.setMetrics Reports.loading Reports.files
       Reports.metrics Reports.selectedFile empty_metrics total_test_cases].
  cbn [N.eqb]. repeat split.
  destruct (Nat.eqb (length files) 0); discriminate.
Qed.

End MetricsViews.

Lemma failed_metrics_look_empty_witness :
  reports_view_of
    (metricsEffect example_as_metrics
       (Rejected (lit "Failed to fetch")) example_reports)
  = NoTestCasesGenerated.
Proof.
  pose proof (failed_metrics_look_empty
                example_as_metrics (Rejected (lit "Failed to fetch"))
                example_reports (Error (lit "Failed to fetch"))) as H.
  cbv zeta in H.
  refine (eq_trans (proj1 (proj2 (H _ eq_refl))) eq_refl).
  discriminate.
Defined.

(** ** The totals of the dashboard *)

Lemma count_requirement_from (tcSum : nat) (req : json) :
  count_requirement tcSum req
  = (n <- count_requirement 0 req ;; Returned (tcSum + n)).
Proof.
  unfold count_requirement.
  destruct (get (lit "test_cases") req) as [test_cases|e]; [|reflexivity].
  cbn [bind].
  destruct test_cases as [[| | | |items|]|]; cbn [bind];
    try (now rewrite Nat.add_0_r).
  destruct (count_with_id items); reflexivity.
Qed.

Lemma reduce_count_requirement_from (reqs : list json) :
  forall tcSum,
    reduce count_requirement reqs tcSum
    = (n <- reduce count_requirement reqs 0 ;; Returned (tcSum + n)).
Proof.
  induction reqs as [|req reqs IH]; intros tcSum; cbn [reduce bind].
  - now rewrite Nat.add_0_r.
  - rewrite (count_requirement_from tcSum req).
    destruct (count_requirement 0 req) as [n|e]; [|reflexivity].
    cbn [bind]. rewrite (IH (tcSum + n)), (IH n).
    destruct (reduce count_requirement reqs 0); [|reflexivity].
    cbn [bind]. now rewrite Nat.add_assoc.
Qed.

Lemma count_file_from (sum : nat) (tcRes : json) :
  count_file sum tcRes = (n <- count_file 0 tcRes ;; Returned (sum + n)).
Proof.
  unfold count_file.
  destruct (truthy (Some tcRes)); [|cbn [bind]; now rewrite Nat.add_0_r].
  destruct (get (lit "requirements") tcRes) as [requirements|e];
    [|reflexivity].
  cbn [bind].
  destruct (truthy requirements); [|cbn [bind]; now rewrite Nat.add_0_r].
  destruct requirements as [[| | | |reqs|]|]; try reflexivity.
  destruct (reduce count_requirement reqs 0); reflexivity.
Qed.

Lemma reduce_count_file_from (results : list json) :
  forall sum,
    reduce count_file results sum
    = (n <- reduce count_file results 0 ;; Returned (sum + n)).
Proof.
  induction results as [|tcRes results IH]; intros sum; cbn [reduce bind].
  - now rewrite Nat.add_0_r.
  - rewrite (count_file_from sum tcRes).
    destruct (count_file 0 tcRes) as [n|e]; [|reflexivity].
    cbn [bind]. rewrite (IH (sum + n)), (IH n).
    destruct (reduce count_file results 0); [|reflexivity].
    cbn [bind]. now rewrite Nat.add_assoc.
Qed.

Lemma reduce_app {A B : Type} (f : B -> A -> outcome B) (a b : list A) :
  forall init,
    reduce f (a ++ b) init = (acc <- reduce f a init ;; reduce f b acc).
Proof.
  induction a as [|x a IH]; intros init; cbn [app reduce bind]; [reflexivity|].
  destruct (f init x); cbn [bind]; [apply IH|reflexivity].
Qed.

Lemma testCasesCount_thrown (results : list json) (tcRes : json) (e : exn) :
  In tcRes results ->
  count_file 0 tcRes = Thrown e ->
  exists e', testCasesCount results = Thrown e'.
Proof.
  unfold testCasesCount. intros Hin Hthrown.
  induction results as [|first results IH]; [destruct Hin|].
  cbn [reduce]. destruct (count_file 0 first) as [n|e'] eqn:Hfirst.
  - cbn [bind]. rewrite reduce_count_file_from.
    destruct Hin as [->|Hin]; [congruence|].
    destruct (IH Hin) as [e' ->]. now exists e'.
  - now exists e'.
Qed.

(** X27.  The count of test cases on the dashboard adds up over the
    documents: the count for two lists of responses one after the other is
    the sum of their counts, and it fails when one of them fails.  A
    response that makes the count fail alone (a [null] requirement or test
    case, requirements that are no array) makes the count of every list
    that holds it fail. *)
Theorem testCasesCount_adds_up (first second : list json) :
  testCasesCount (first ++ second)
  = (n <- testCasesCount first ;;
     m <- testCasesCount second ;;
     Returned (n + m))
  /\ forall tcRes e,
       In tcRes (first ++ second) ->
       count_file 0 tcRes = Thrown e ->
       exists e', testCasesCount (first ++ second) = Thrown e'.
Proof.
  split.
  - unfold testCasesCount. rewrite reduce_app.
    destruct (reduce count_file first 0) as [n|e]; [|reflexivity].
    cbn [bind]. apply reduce_count_file_from.
  - intros tcRes e. apply testCasesCount_thrown.
Qed.

Lemma Promise_all_rejects {A : Type} (promises : list (outcome A)) (e : exn) :
  In (Thrown e) promises -> exists e', Promise_all promises = Thrown e'.
Proof.
  induction promises as [|p promises IH]; [intros []|].
  intros [->|Hin]; [now exists e|].
  cbn [Promise_all]. destruct p as [a|e']; [|now exists e'].
  cbn [bind]. destruct (IH Hin) as [e' ->]. now exists e'.
Qed.

Section DashboardTotals.
Variable toLocaleString : nat -> str.

(** X28.  A failure leaves the dashboard half updated: when the list of
    files arrives and one of the requests for the requirements or for the
    test cases of a file fails, the total of files shows the new number
    of files, and the totals of requirements and of test cases and the
    recent activities stay as they were. *)
Theorem fetchData_failure (files : list json)
  (requirementsResult testCasesResult : nat -> outcome json)
  (d : dashboard) (i : nat) (e : exn) :
  i < length files ->
  requirementsResult i = Thrown e \/ testCasesResult i = Thrown e ->
  fetchData toLocaleString (Returned files) requirementsResult testCasesResult d
  = setTotalFiles (toLocaleString (length files)) d.
Proof.
  intros Hi Hfail. unfold fetchData.
  destruct (map_outcome (get (lit "file_id")) files) as [ids|e0];
    [|reflexivity].
  cbn [bind].
  assert (Hseq : In i (seq 0 (length files))) by (apply in_seq; lia).
  destruct (Promise_all (List.map requirementsResult (seq 0 (length files))))
    as [requirementsResults|e1] eqn:Hreqs; [|reflexivity].
  cbn [bind].
  destruct (Promise_all (List.map testCasesResult (seq 0 (length files))))
    as [testCasesResults|e2] eqn:Hcases; [|reflexivity].
  exfalso. destruct Hfail as [Hfail|Hfail].
  - destruct (Promise_all_rejects
                (List.map requirementsResult (seq 0 (length files))) e)
      as [e' He'].
    { rewrite <- Hfail. now apply in_map. }
    congruence.
  - destruct (Promise_all_rejects
                (List.map testCasesResult (seq 0 (length files))) e)
      as [e' He'].
    { rewrite <- Hfail. now apply in_map. }
    congruence.
Qed.

End DashboardTotals.

Lemma fetchData_failure_witness :
  fetchData example_toLocaleString
    (Returned [JObj [(lit "file_id", JStr (lit "file-1"))];
               JObj [(lit "file_id", JStr (lit "file-2"))]])
    (fun _ => Returned (JArr []))
    (fun i => match i with
              | 1 => Thrown (Error (lit "Failed to fetch test cases: "))
              | _ => Returned JNull
              end)
    example_dashboard
  = setTotalFiles (lit "2") example_dashboard.
Proof.
  apply (fetchData_failure example_toLocaleString
           [JObj [(lit "file_id", JStr (lit "file-1"))];
            JObj [(lit "file_id", JStr (lit "file-2"))]]
           (fun _ => Returned (JArr []))
           (fun i => match i with
                     | 1 => Thrown (Error (lit "Failed to fetch test cases: "))
                     | _ => Returned JNull
                     end)
           example_dashboard 1 (Error (lit "Failed to fetch test cases: "))).
  - cbn. lia.
  - right. reflexivity.
Defined.
